(** * ReceiptService (service/receipt/receipt-service.ts)

    A shallow embedding of the receipt/account orchestration service and
    of the decision loop that turns account and receipt events into
    payables.  The service owns an account cache and two listener
    registries; everything else (capture plugin, ledger sdk, reward rules,
    host listeners, the clock) is a collaborator whose calls are logged, in
    order, in the [log] of the state and whose answers come from an
    environment [Env]. *)

From Stdlib Require Import List String Bool ZArith Floats.
Import ListNotations.
Open Scope string_scope.

Set Implicit Arguments.

(** ** Values *)

(** A JavaScript [number] is an IEEE 754 binary64 value. *)
Definition number := float.

(** [a > b] on numbers; false as soon as one side is NaN. *)
Definition gt (a b : number) : bool := PrimFloat.ltb b a.

(** [new Date()], as milliseconds since the epoch. *)
Definition Date := Z.

(** The host functions registered as listeners are opaque; a listener is
    identified by the function value that was registered. *)
Definition Callback := nat.

(** A thrown value: [Error(message)]. *)
Inductive JsError := Error (message : string).

(** Template-literal conversion of a caught error, [`${error}`]. *)
Definition toString (e : JsError) : string :=
  match e with Error m => "Error: " ++ m end.

(** Outcome of a call: a value, or a thrown error / rejected promise. *)
Inductive Res (A : Type) :=
| Ok (a : A)
| Throw (e : JsError).
Arguments Ok {A} a.
Arguments Throw {A} e.

(** ReceiptEvent (service/receipt/receipt-event.ts). *)
Inductive ReceiptEvent := LINK | UNLINK | SCAN.

(** The objects of the capture plugin, with the fields the service reads. *)
Module Capture.
Record Account := {
  username : string;
  type : option string;
  isVerified : bool
}.

Record Receipt := {
  ocrConfidence : number;
  duplicate : bool;
  fraudulent : bool;
  blinkReceiptId : option string
}.

(** What [plugin.scan] resolves to: the service reads its [receipt]. *)
Record ScanResult := { receipt : Receipt }.
End Capture.

(** ReceiptAccount and its account type ([accountType.type] is the provider,
    [accountType.key] the identifier handed to the plugin). *)
Record ReceiptAccountType := {
  type : option string;
  key : option string
}.

Record ReceiptAccount := {
  username : string;
  password : option string;
  accountType : ReceiptAccountType;
  isVerified : bool
}.

Record LicenseRecord := { license_id : string }.

(** The [details] argument of [process] and of the reward issuers. *)
Record Details := {
  receipt : option Capture.Receipt;
  account : option ReceiptAccount
}.

(** A reward rule of [tiki.config.rewards]: [issuer(event, details)] is a
    number or [undefined]. *)
Record Reward := {
  issuer : ReceiptEvent -> Details -> option number
}.

(** HistoryEvent.new(amount, date, event, provider). *)
Record HistoryEvent := {
  amount : number;
  date : Date;
  event : ReceiptEvent;
  provider : option string
}.

(** The two [console.warn] messages of the service:
    [`Receipt ignored: Confidence: ${c}`] and
    [`Receipt ignored — duplicate: ${d} | fraudulent: ${f} | confidence: ${c}`]. *)
Inductive Warning :=
| LowConfidence (confidence : number)
| Rejected (duplicate fraudulent : bool) (confidence : number).

(** ** Calls on collaborators, as they are logged *)

Inductive Effect :=
| PluginInitialize (scanKey intelKey : string)
| PluginLogin (username : string) (password key : option string)
| PluginLogout (username password key : option string)
| PluginAccounts
| PluginScan (scanType : string) (account : option ReceiptAccount)
| SdkGetLicense
| SdkIngest (receipt : Capture.Receipt)
| SdkCreatePayable (amount : number) (description : string)
                   (reference : option string)
| IssuerCall (rule : nat) (event : ReceiptEvent) (details : Details)
| AccountListenerCall (listener : Callback) (account : ReceiptAccount)
| ReceiptListenerCall (listener : Callback) (receipt : Capture.Receipt)
                      (account : ReceiptAccount)
| ConsoleWarn (message : Warning).

(** ** The collaborators

    Each answer may depend on the calls logged so far.  [Throw] stands for
    a rejected promise or a thrown exception. *)
Record Env := {
  (* this.plugin *)
  plugin_initialize : list Effect -> string -> string -> Res unit;
  plugin_login :
    list Effect -> string -> option string -> option string -> Res unit;
  plugin_logout :
    list Effect -> option string -> option string -> option string ->
    Res unit;
  plugin_accounts : list Effect -> Res (list Capture.Account);
  plugin_scan :
    list Effect -> string -> option ReceiptAccount -> Res Capture.ScanResult;
  (* this.tiki.sdk *)
  sdk_id : string;
  sdk_getLicense : list Effect -> Res (option LicenseRecord);
  sdk_ingest : list Effect -> Capture.Receipt -> Res unit;
  sdk_createPayable :
    list Effect -> number -> string -> option string -> Res unit;
  (* this.tiki.config.rewards *)
  rewards : list Reward;
  (* the listeners of the host application *)
  accountListener : list Effect -> Callback -> ReceiptAccount -> Res unit;
  receiptListener :
    list Effect -> Callback -> Capture.Receipt -> ReceiptAccount -> Res unit;
  (* new Date() *)
  now : list Effect -> Date;
  (* ReceiptAccount.fromValue and HistoryEvent.name, declared in
     receipt-account.ts and history-event.ts *)
  fromValue : option Capture.Account -> Res ReceiptAccount;
  historyEventName : HistoryEvent -> string
}.

(** ** State

    The three private fields of the service, the history log of the parent
    service ([tiki.history]) and the log of calls.  A JavaScript [Map] is
    an association list in insertion order. *)
Record State := {
  _accounts : list ReceiptAccount;
  _onAccountListeners : list (string * Callback);
  _onReceiptListeners : list (string * Callback);
  history : list HistoryEvent;
  log : list Effect
}.

Definition with_accounts (l : list ReceiptAccount) (st : State) : State :=
  {| _accounts := l;
     _onAccountListeners := _onAccountListeners st;
     _onReceiptListeners := _onReceiptListeners st;
     history := history st;
     log := log st |}.

Definition with_onAccountListeners (m : list (string * Callback))
  (st : State) : State :=
  {| _accounts := _accounts st;
     _onAccountListeners := m;
     _onReceiptListeners := _onReceiptListeners st;
     history := history st;
     log := log st |}.

Definition with_onReceiptListeners (m : list (string * Callback))
  (st : State) : State :=
  {| _accounts := _accounts st;
     _onAccountListeners := _onAccountListeners st;
     _onReceiptListeners := m;
     history := history st;
     log := log st |}.

Definition with_history (h : list HistoryEvent) (st : State) : State :=
  {| _accounts := _accounts st;
     _onAccountListeners := _onAccountListeners st;
     _onReceiptListeners := _onReceiptListeners st;
     history := h;
     log := log st |}.

Definition logged (e : Effect) (st : State) : State :=
  {| _accounts := _accounts st;
     _onAccountListeners := _onAccountListeners st;
     _onReceiptListeners := _onReceiptListeners st;
     history := history st;
     log := log st ++ [e] |}.

(** [Map.prototype.set]: an existing key keeps its position. *)
Fixpoint Map_set {V : Type} (k : string) (v : V) (m : list (string * V))
  : list (string * V) :=
  match m with
  | [] => [(k, v)]
  | (k', v') :: m' =>
      if String.eqb k' k then (k, v) :: m' else (k', v') :: Map_set k v m'
  end.

(** ** The monad of the service: state, and exceptions that keep the state *)

Definition M (A : Type) : Type := State -> Res A * State.

Definition ret {A : Type} (a : A) : M A := fun st => (Ok a, st).

Definition bind {A B : Type} (m : M A) (f : A -> M B) : M B :=
  fun st =>
    match m st with
    | (Ok a, st') => f a st'
    | (Throw e, st') => (Throw e, st')
    end.

Notation "x <- m ;; k" := (bind m (fun x => k))
  (at level 61, m at next level, right associativity).
Notation "m ;; k" := (bind m (fun _ => k))
  (at level 61, right associativity).

Definition throw {A : Type} (e : JsError) : M A := fun st => (Throw e, st).

Definition lift {A : Type} (r : Res A) : M A := fun st => (r, st).

Definition gets {A : Type} (f : State -> A) : M A := fun st => (Ok (f st), st).

Definition modify (f : State -> State) : M unit := fun st => (Ok tt, f st).

(** [try { m } catch (error) { h error }]. *)
Definition try_catch {A : Type} (m : M A) (h : JsError -> M A) : M A :=
  fun st =>
    match m st with
    | (Ok a, st') => (Ok a, st')
    | (Throw e, st') => h e st'
    end.

(** A call on a collaborator: logged, and answered from the calls logged
    before it. *)
Definition call {A : Type} (e : Effect) (answer : list Effect -> Res A)
  : M A :=
  fun st => (answer (log st), logged e st).

(** An [async] call whose promise is not awaited: its effects take place,
    its rejection never reaches the caller.  The detached task is run to
    completion at the point where it is started. *)
Definition detach (m : M unit) : M unit :=
  fun st => (Ok tt, snd (m st)).

(** [l.forEach(f)], also [for (const x of l)]. *)
Fixpoint forEach {A : Type} (l : list A) (f : A -> M unit) : M unit :=
  match l with
  | [] => ret tt
  | x :: l' => f x ;; forEach l' f
  end.

(** Truthiness of a [string | undefined]. *)
Definition truthy (s : option string) : bool :=
  match s with
  | None => false
  | Some s => negb (String.eqb s "")
  end.

(** [s === lit] for a [string | undefined]. *)
Definition strictEq (s : option string) (lit : string) : bool :=
  match s with
  | None => false
  | Some s => String.eqb s lit
  end.

(** The rules of a list, each with its position. *)
Definition indexed {A : Type} (l : list A) : list (nat * A) :=
  combine (seq 0 (List.length l)) l.

(** ** The service *)

(** [static readonly OCR_THRESHOLD = 0.9]: the literal denotes the binary64
    value nearest to nine tenths, 0x1.ccccccccccccdp-1. *)
#[warnings="-inexact-float"]
Definition OCR_THRESHOLD : number := 0.9%float.

Section ReceiptService.

Variable env : Env.

(** [get cachedAccounts()]. *)
Definition cachedAccounts (st : State) : list ReceiptAccount :=
  _accounts st.

(** [initialize(scanKey, intelKey)]. *)
Definition initialize (scanKey intelKey : string) : M unit :=
  try_catch
    (call (PluginInitialize scanKey intelKey)
          (fun h => plugin_initialize env h scanKey intelKey))
    (fun error => throw (Error ("Could not initialize; Error: "
                                  ++ toString error))).

(** [onAccount(id, listener)] and [onReceipt(id, listener)]. *)
Definition onAccount (id : string) (listener : Callback) : M unit :=
  modify (fun st =>
    with_onAccountListeners (Map_set id listener (_onAccountListeners st))
                            st).

Definition onReceipt (id : string) (listener : Callback) : M unit :=
  modify (fun st =>
    with_onReceiptListeners (Map_set id listener (_onReceiptListeners st))
                            st).

(** [details.account?.accountType.type?.valueOf()]. *)
Definition providerOf (details : Details) : option string :=
  match account details with
  | Some a => type (accountType a)
  | None => None
  end.

(** [details.receipt?.blinkReceiptId]. *)
Definition referenceOf (details : Details) : option string :=
  match receipt details with
  | Some r => Capture.blinkReceiptId r
  | None => None
  end.

(** The body of the loop of [process], for the rule at position [i]. *)
Definition processReward (event : ReceiptEvent) (details : Details)
  (ir : nat * Reward) : M unit :=
  let (i, reward) := ir in
  amount <- call (IssuerCall i event details)
                 (fun _ => Ok (issuer reward event details)) ;;
  match amount with
  | Some amount =>
      today <- gets (fun st => now env (log st)) ;;
      let historyEvent :=
        {| amount := amount; date := today; event := event;
           provider := providerOf details |} in
      call (SdkCreatePayable amount (historyEventName env historyEvent)
                             (referenceOf details))
           (fun h => sdk_createPayable env h amount
                       (historyEventName env historyEvent)
                       (referenceOf details)) ;;
      (* this.tiki.history.add(historyEvent) *)
      modify (fun st => with_history (history st ++ [historyEvent]) st)
  | None => ret tt
  end.

(** [process(event, details)]. *)
Definition process (event : ReceiptEvent) (details : Details) : M unit :=
  forEach (indexed (rewards env)) (processReward event details).

(** [addReceipt(receipt, account?)]. *)
Definition addReceipt (receipt : Capture.Receipt)
  (account : option Capture.Account) : M unit :=
  if negb (Capture.duplicate receipt) && negb (Capture.fraudulent receipt)
  then
    call (SdkIngest receipt) (fun h => sdk_ingest env h receipt) ;;
    a <- lift (fromValue env account) ;;
    process SCAN {| receipt := Some receipt; account := Some a |} ;;
    listeners <- gets _onReceiptListeners ;;
    forEach listeners (fun kv =>
      a <- lift (fromValue env account) ;;
      call (ReceiptListenerCall (snd kv) receipt a)
           (fun h => receiptListener env h (snd kv) receipt a))
  else
    call (ConsoleWarn (Rejected (Capture.duplicate receipt)
                                (Capture.fraudulent receipt)
                                (Capture.ocrConfidence receipt)))
         (fun _ => Ok tt).

(** [scan(scanType, account?)]. *)
Definition scan (scanType : option string)
  (account : option ReceiptAccount) : M unit :=
  (if strictEq scanType "PHYSICAL" then
     license <- call SdkGetLicense (sdk_getLicense env) ;;
     match license with
     | Some _ =>
         receipt <- call (PluginScan "PHYSICAL" None)
                         (fun h => plugin_scan env h "PHYSICAL" None) ;;
         if gt (Capture.ocrConfidence (Capture.receipt receipt))
               OCR_THRESHOLD
         then addReceipt (Capture.receipt receipt) None
         else call (ConsoleWarn (LowConfidence
                      (Capture.ocrConfidence (Capture.receipt receipt))))
                   (fun _ => Ok tt)
     | None =>
         throw (Error ("No license found for " ++ sdk_id env
                         ++ ". User must first consent to the program."))
     end
   else ret tt) ;;
  if negb (truthy scanType) then
    receipts <- call (PluginScan "ONLINE" account)
                     (fun h => plugin_scan env h "ONLINE" account) ;;
    detach (addReceipt (Capture.receipt receipts) None)
  else ret tt.

(** [addAccount(account)]. *)
Definition addAccount (account : ReceiptAccount) : M unit :=
  modify (fun st => with_accounts (_accounts st ++ [account]) st) ;;
  listeners <- gets _onAccountListeners ;;
  forEach listeners (fun kv =>
    call (AccountListenerCall (snd kv) account)
         (fun h => accountListener env h (snd kv) account)) ;;
  detach (scan (Some "ONLINE") (Some account)).

(** [a != b] on [string | undefined] values. *)
Definition neq (a b : option string) : bool :=
  match a, b with
  | Some x, Some y => negb (String.eqb x y)
  | None, None => false
  | _, _ => true
  end.

(** The predicate of the filter of [removeAccount]: the cached accounts
    that are kept. *)
Definition kept (account acc : ReceiptAccount) : bool :=
  negb (String.eqb (username acc) (username account))
  && neq (type (accountType acc)) (type (accountType account)).

(** [removeAccount(account)]. *)
Definition removeAccount (account : ReceiptAccount) : M unit :=
  modify (fun st => with_accounts (filter (kept account) (_accounts st)) st) ;;
  listeners <- gets _onAccountListeners ;;
  forEach listeners (fun kv =>
    call (AccountListenerCall (snd kv) account)
         (fun h => accountListener env h (snd kv) account)).

(** [login(account)]. *)
Definition login (account : ReceiptAccount) : M unit :=
  call (PluginLogin (username account) (password account)
                    (key (accountType account)))
       (fun h => plugin_login env h (username account) (password account)
                   (key (accountType account))) ;;
  let account :=
    {| username := username account; password := password account;
       accountType := accountType account; isVerified := true |} in
  addAccount account ;;
  process LINK {| receipt := None; account := Some account |}.

(** [logout(account = undefined)]. *)
Definition logout (account : option ReceiptAccount) : M unit :=
  match account with
  | None =>
      call (PluginLogout None None None)
           (fun h => plugin_logout env h None None None) ;;
      modify (with_accounts [])
  | Some account =>
      call (PluginLogout (Some (username account)) (password account)
                         (key (accountType account)))
           (fun h => plugin_logout env h (Some (username account))
                       (password account) (key (accountType account))) ;;
      removeAccount account ;;
      process UNLINK {| receipt := None; account := Some account |}
  end.

(** [accounts()]. *)
Definition accounts : M unit :=
  try_catch
    (persisted <- call PluginAccounts (plugin_accounts env) ;;
     forEach persisted (fun account =>
       a <- lift (fromValue env (Some account)) ;;
       addAccount a ;;
       a' <- lift (fromValue env (Some account)) ;;
       detach (scan (Some "ONLINE") (Some a'))))
    (fun error => throw (Error ("Could not load the accounts; Error: "
                                  ++ toString error))).

End ReceiptService.

(** ** Reading the log *)

Definition with_log (l : list Effect) (st : State) : State :=
  {| _accounts := _accounts st;
     _onAccountListeners := _onAccountListeners st;
     _onReceiptListeners := _onReceiptListeners st;
     history := history st;
     log := l |}.

(** The reward rules evaluated, in order. *)
Definition issuerCalls (l : list Effect)
  : list (nat * ReceiptEvent * Details) :=
  flat_map (fun e => match e with
                     | IssuerCall i ev d => [(i, ev, d)]
                     | _ => []
                     end) l.

(** The amounts of the payables requested from the ledger, in order. *)
Definition payables (l : list Effect) : list number :=
  flat_map (fun e => match e with
                     | SdkCreatePayable a _ _ => [a]
                     | _ => []
                     end) l.

(** The account listeners invoked, each with its argument. *)
Definition accountNotifications (l : list Effect)
  : list (Callback * ReceiptAccount) :=
  flat_map (fun e => match e with
                     | AccountListenerCall cb a => [(cb, a)]
                     | _ => []
                     end) l.

(** The receipt listeners invoked. *)
Definition receiptNotifications (l : list Effect)
  : list (Callback * Capture.Receipt) :=
  flat_map (fun e => match e with
                     | ReceiptListenerCall cb r _ => [(cb, r)]
                     | _ => []
                     end) l.

(** The scans requested from the capture plugin. *)
Definition pluginScans (l : list Effect)
  : list (string * option ReceiptAccount) :=
  flat_map (fun e => match e with
                     | PluginScan t a => [(t, a)]
                     | _ => []
                     end) l.

(** The amounts issued by a rule set for an event: one per rule whose
    issuer answers a number. *)
Definition fired (rs : list Reward) (ev : ReceiptEvent) (d : Details)
  : list number :=
  flat_map (fun r => match issuer r ev d with
                     | Some a => [a]
                     | None => []
                     end) rs.

(** [emits P m]: whatever its outcome, [m] only appends to the log, and
    only calls that satisfy [P]. *)
Definition emits {A : Type} (P : Effect -> Prop) (m : M A) : Prop :=
  forall st, exists added,
    log (snd (m st)) = (log st ++ added)%list /\ Forall P added.

(** The calls of the decision loop. *)
Definition decision (e : Effect) : Prop :=
  match e with
  | IssuerCall _ _ _ | SdkCreatePayable _ _ _ => True
  | _ => False
  end.

(** The calls that notify the listeners of a registry of [account]. *)
Definition notifications (account : ReceiptAccount)
  (registry : list (string * Callback)) : list Effect :=
  map (fun kv => AccountListenerCall (snd kv) account) registry.

(** What the log and the history gain while [process] runs. *)
Record Issued (ev : ReceiptEvent) (d : Details) (first : nat)
  (rs : list Reward) (calls : list Effect) (records : list HistoryEvent)
  : Prop := {
  issued_rules :
    issuerCalls calls
    = map (fun i => (i, ev, d)) (seq first (List.length rs));
  issued_payables : payables calls = fired rs ev d;
  issued_history : map amount records = fired rs ev d;
  issued_tags :
    Forall (fun h => event h = ev /\ provider h = providerOf d) records;
  issued_quiet :
    accountNotifications calls = [] /\ receiptNotifications calls = [] /\
    pluginScans calls = []
}.

(** ** Relating the state before and after *)

(** [respects R m]: whatever its outcome, [m] takes a state to one that [R]
    relates to it. *)
Definition respects {A : Type} (R : State -> State -> Prop) (m : M A)
  : Prop :=
  forall st, R st (snd (m st)).

(** Both listener registries are as before and the history has only been
    appended to. *)
Definition settled (st st' : State) : Prop :=
  _onAccountListeners st' = _onAccountListeners st /\
  _onReceiptListeners st' = _onReceiptListeners st /\
  exists records, history st' = (history st ++ records)%list.

(** The account cache is as before. *)
Definition sameCache (st st' : State) : Prop :=
  _accounts st' = _accounts st.

(** The account as [login] caches it, after [account.isVerified = true]. *)
Definition verified (account : ReceiptAccount) : ReceiptAccount :=
  {| username := username account; password := password account;
     accountType := accountType account; isVerified := true |}.

(** The calls that hand [receipt] and [account] to the listeners of a
    registry. *)
Definition receiptCalls (receipt : Capture.Receipt)
  (account : ReceiptAccount) (registry : list (string * Callback))
  : list Effect :=
  map (fun kv => ReceiptListenerCall (snd kv) receipt account) registry.

(** The ids under which listeners are registered. *)
Definition ids (registry : list (string * Callback)) : list string :=
  map fst registry.

(** ** A concrete host, for examples *)

Module Fixture.

Definition gmail : ReceiptAccountType :=
  {| type := Some "GMAIL"; key := Some "gmail" |}.

Definition outlook : ReceiptAccountType :=
  {| type := Some "OUTLOOK"; key := Some "outlook" |}.

Definition alice : ReceiptAccount :=
  {| username := "alice"; password := Some "a-secret";
     accountType := gmail; isVerified := true |}.

Definition bob : ReceiptAccount :=
  {| username := "bob"; password := Some "b-secret";
     accountType := gmail; isVerified := true |}.

Definition alice_outlook : ReceiptAccount :=
  {| username := "alice"; password := None;
     accountType := outlook; isVerified := true |}.

Definition carol : ReceiptAccount :=
  {| username := "carol"; password := None;
     accountType := outlook; isVerified := true |}.

Definition persisted (a : ReceiptAccount) : Capture.Account :=
  {| Capture.username := username a;
     Capture.type := type (accountType a);
     Capture.isVerified := isVerified a |}.

(** A stand-in for [ReceiptAccount.fromValue]: it throws on
    [undefined]. *)
Definition normalize (a : option Capture.Account) : Res ReceiptAccount :=
  match a with
  | Some a =>
      Ok {| username := Capture.username a; password := None;
            accountType := {| type := Capture.type a; key := None |};
            isVerified := Capture.isVerified a |}
  | None => Throw (Error "Cannot read properties of undefined")
  end.

(** Rule A: one point for a LINK; rule B: two points for a SCAN. *)
Definition ruleA : Reward :=
  {| issuer := fun ev _ => match ev with
                           | LINK => Some 1%float
                           | _ => None
                           end |}.

Definition ruleB : Reward :=
  {| issuer := fun ev _ => match ev with
                           | SCAN => Some 2%float
                           | _ => None
                           end |}.

Definition ruleC : Reward :=
  {| issuer := fun ev _ => match ev with
                           | LINK => Some 5%float
                           | UNLINK => Some 0%float
                           | SCAN => None
                           end |}.

Definition eventName (h : HistoryEvent) : string :=
  match event h with
  | LINK => "Account linked"
  | UNLINK => "Account unlinked"
  | SCAN => "Receipt scanned"
  end.

Definition blurred : Capture.Receipt :=
  {| Capture.ocrConfidence := 0.25%float; Capture.duplicate := false;
     Capture.fraudulent := false; Capture.blinkReceiptId := Some "r-1" |}.

Definition sharp : Capture.Receipt :=
  {| Capture.ocrConfidence := 0.96875%float; Capture.duplicate := false;
     Capture.fraudulent := false; Capture.blinkReceiptId := Some "r-2" |}.

Definition resubmitted : Capture.Receipt :=
  {| Capture.ocrConfidence := 0.96875%float; Capture.duplicate := true;
     Capture.fraudulent := false; Capture.blinkReceiptId := Some "r-2" |}.

(** A host in which every call succeeds: [license] is what the ledger
    answers to [getLicense], [scanned] what the plugin scans, [stored]
    the accounts the plugin has persisted. *)
Definition host (license : option LicenseRecord)
  (scanned : Capture.Receipt) (stored : list Capture.Account) : Env :=
  {| plugin_initialize := fun _ _ _ => Ok tt;
     plugin_login := fun _ _ _ _ => Ok tt;
     plugin_logout := fun _ _ _ _ => Ok tt;
     plugin_accounts := fun _ => Ok stored;
     plugin_scan := fun _ _ _ => Ok {| Capture.receipt := scanned |};
     sdk_id := "user-1";
     sdk_getLicense := fun _ => Ok license;
     sdk_ingest := fun _ _ => Ok tt;
     sdk_createPayable := fun _ _ _ _ => Ok tt;
     rewards := [ruleA; ruleB; ruleC];
     accountListener := fun _ _ _ => Ok tt;
     receiptListener := fun _ _ _ _ => Ok tt;
     now := fun h => Z.of_nat (List.length h);
     fromValue := normalize;
     historyEventName := eventName |}.

Definition licensed : option LicenseRecord :=
  Some {| license_id := "license-1" |}.

(** A licensed host with nothing stored. *)
Definition quiet : Env := host licensed sharp [].

(** A service on which two account listeners and one receipt listener
    are registered, with [cache] as its accounts. *)
Definition service (cache : list ReceiptAccount) : State :=
  {| _accounts := cache;
     _onAccountListeners := [("ui", 1); ("sync", 2)];
     _onReceiptListeners := [("ui", 3)];
     history := [];
     log := [] |}.

End Fixture.

(** ** TikiService (tiki-service.ts)

    The parent service of an earlier revision: it keeps the user id, the
    title and license once found, and the running total of points, and
    talks to the licensing sdk and to the capture plugin directly. *)

Module Tiki.

Record TitleRecord := { title_id : string }.

Record PayableRecord := {
  payable_id : string;
  payable_amount : string;
  payable_type : string
}.

Record ReceiptRecord := { receipt_amount : string }.

(** [config.key]. *)
Record Key := {
  publishingId : string;
  scanKey : string;
  intelKey : string
}.

(** The calls on [licensing], on [capture] and on [onTotalChanged]. *)
Inductive Call :=
| LicensingInitialize (id publishingId : string)
| CaptureInitialize (scanKey intelKey : string)
| CaptureScan
| CreatePayable (licenseId amount type description : string)
                (reference : option string)
| GetTitle (id : string)
| GetLicenses (titleId : string)
| GetPayables (licenseId : string)
| GetReceipts (payableId : string)
| TotalChanged (listener : Callback) (total : number).

(** The collaborators of the service and what the file imports or takes
    from the language: the constant RECEIPT_SCANNED_DESCRIPTION, the
    conversions [Number(...)] and [`${number}`]. *)
Record Env := {
  key : Key;
  licensing_initialize : list Call -> string -> string -> Res unit;
  capture_initialize : list Call -> string -> string -> Res unit;
  capture_scan : list Call -> Res Capture.Receipt;
  createPayable :
    list Call -> string -> string -> string -> string -> option string ->
    Res PayableRecord;
  getTitle : list Call -> string -> Res (option TitleRecord);
  getLicenses : list Call -> string -> Res (list LicenseRecord);
  getPayables : list Call -> string -> Res (list PayableRecord);
  getReceipts : list Call -> string -> Res (list ReceiptRecord);
  totalListener : list Call -> Callback -> number -> Res unit;
  RECEIPT_SCANNED_DESCRIPTION : string;
  Number : string -> number;
  numberToString : number -> string
}.

(** The fields of the service, and the calls made so far. *)
Record Service := {
  _id : option string;
  _title : option TitleRecord;
  _license : option LicenseRecord;
  _isInitialized : bool;
  _total : number;
  onTotalChanged : option Callback;
  calls : list Call
}.

(** [private readonly _type = "pt"]. *)
Definition _type : string := "pt".

Definition with_id (i : option string) (s : Service) : Service :=
  {| _id := i; _title := _title s; _license := _license s;
     _isInitialized := _isInitialized s; _total := _total s;
     onTotalChanged := onTotalChanged s; calls := calls s |}.

Definition with_title (t : option TitleRecord) (s : Service) : Service :=
  {| _id := _id s; _title := t; _license := _license s;
     _isInitialized := _isInitialized s; _total := _total s;
     onTotalChanged := onTotalChanged s; calls := calls s |}.

Definition with_license (l : option LicenseRecord) (s : Service)
  : Service :=
  {| _id := _id s; _title := _title s; _license := l;
     _isInitialized := _isInitialized s; _total := _total s;
     onTotalChanged := onTotalChanged s; calls := calls s |}.

Definition with_isInitialized (b : bool) (s : Service) : Service :=
  {| _id := _id s; _title := _title s; _license := _license s;
     _isInitialized := b; _total := _total s;
     onTotalChanged := onTotalChanged s; calls := calls s |}.

Definition with_total (t : number) (s : Service) : Service :=
  {| _id := _id s; _title := _title s; _license := _license s;
     _isInitialized := _isInitialized s; _total := t;
     onTotalChanged := onTotalChanged s; calls := calls s |}.

Definition called (c : Call) (s : Service) : Service :=
  {| _id := _id s; _title := _title s; _license := _license s;
     _isInitialized := _isInitialized s; _total := _total s;
     onTotalChanged := onTotalChanged s; calls := calls s ++ [c] |}.

(** The monad of this service: as [M], over [Service]. *)
Definition T (A : Type) : Type := Service -> Res A * Service.

Definition ret {A : Type} (a : A) : T A := fun s => (Ok a, s).

Definition bind {A B : Type} (m : T A) (f : A -> T B) : T B :=
  fun s =>
    match m s with
    | (Ok a, s') => f a s'
    | (Throw e, s') => (Throw e, s')
    end.

Declare Scope tiki_scope.
Delimit Scope tiki_scope with tiki.
Notation "x <- m ;; k" := (bind m (fun x => k))
  (at level 61, m at next level, right associativity) : tiki_scope.
Notation "m ;; k" := (bind m (fun _ => k))
  (at level 61, right associativity) : tiki_scope.
Local Open Scope tiki_scope.

Definition throw {A : Type} (e : JsError) : T A := fun s => (Throw e, s).

Definition gets {A : Type} (f : Service -> A) : T A :=
  fun s => (Ok (f s), s).

Definition modify (f : Service -> Service) : T unit :=
  fun s => (Ok tt, f s).

Definition call {A : Type} (c : Call) (answer : list Call -> Res A) : T A :=
  fun s => (answer (calls s), called c s).

(** A call that is not awaited; see [detach]. *)
Definition detach (m : T unit) : T unit :=
  fun s => (Ok tt, snd (m s)).

Fixpoint forEach {A : Type} (l : list A) (f : A -> T unit) : T unit :=
  match l with
  | [] => ret tt
  | x :: l' => f x ;; forEach l' f
  end.

(** [a >= b] on numbers. *)
Definition ge (a b : number) : bool := PrimFloat.leb b a.

(** [`${b}`] for a boolean. *)
Definition boolToString (b : bool) : string :=
  if b then "true" else "false".

(** [licenses.at(licenses.length - 1)]. *)
Definition at_last {A : Type} (l : list A) : option A :=
  nth_error l (List.length l - 1).

Section Service.

Variable env : Env.

(** [get isInitialized()] and [get total()]. *)
Definition isInitialized (s : Service) : bool := _isInitialized s.

Definition total (s : Service) : number := _total s.

(** [id()]. *)
Definition id : T string :=
  i <- gets _id ;;
  match i with
  | Some i => ret i
  | None => throw (Error "Tiki is not initialized. First call .initialize()")
  end.

(** [license()]. *)
Definition license : T (option LicenseRecord) :=
  cached <- gets _license ;;
  match cached with
  | Some l => ret (Some l)
  | None =>
      i <- id ;;
      title <- call (GetTitle i) (fun h => getTitle env h i) ;;
      match title with
      | Some title =>
          modify (with_title (Some title)) ;;
          licenses <- call (GetLicenses (title_id title))
                           (fun h => getLicenses env h (title_id title)) ;;
          (if Nat.ltb 0 (List.length licenses)
           then modify (with_license (at_last licenses))
           else ret tt) ;;
          gets _license
      | None => ret None
      end
  end.

(** [adjustTotal(val)]. *)
Definition adjustTotal (val : number) : T unit :=
  modify (fun s => with_total (PrimFloat.add (_total s) val) s) ;;
  listener <- gets onTotalChanged ;;
  match listener with
  | Some listener =>
      t <- gets _total ;;
      call (TotalChanged listener t) (fun h => totalListener env h listener t)
  | None => ret tt
  end.

(** The message of the error [scan] throws for a rejected receipt. *)
Definition scanFailed (receipt : Capture.Receipt) : string :=
  "Scan failed — duplicate: "
  ++ boolToString (Capture.duplicate receipt)
  ++ " | fraudulent: " ++ boolToString (Capture.fraudulent receipt)
  ++ " | confidence: " ++ numberToString env (Capture.ocrConfidence receipt).

(** [scan()]. *)
Definition scan : T unit :=
  l <- license ;;
  match l with
  | Some l =>
      receipt <- call CaptureScan (capture_scan env) ;;
      if negb (Capture.duplicate receipt)
         && negb (Capture.fraudulent receipt)
         && ge (Capture.ocrConfidence receipt) 0.5%float
      then
        payable <- call (CreatePayable (license_id l) "1" _type
                           (RECEIPT_SCANNED_DESCRIPTION env)
                           (Capture.blinkReceiptId receipt))
                        (fun h => createPayable env h (license_id l) "1" _type
                                    (RECEIPT_SCANNED_DESCRIPTION env)
                                    (Capture.blinkReceiptId receipt)) ;;
        adjustTotal (Number env (payable_amount payable))
      else throw (Error (scanFailed receipt))
  | None =>
      i <- id ;;
      throw (Error ("No license found for " ++ i
                      ++ ". User must first consent to the program."))
  end.

(** [retrieveTotal()]. *)
Definition retrieveTotal : T unit :=
  l <- license ;;
  match l with
  | Some l =>
      payables <- call (GetPayables (license_id l))
                       (fun h => getPayables env h (license_id l)) ;;
      forEach payables (fun payable =>
        if String.eqb (payable_type payable) _type then
          modify (fun s =>
            with_total (PrimFloat.add (_total s)
                          (Number env (payable_amount payable))) s) ;;
          receipts <- call (GetReceipts (payable_id payable))
                           (fun h => getReceipts env h (payable_id payable)) ;;
          forEach receipts (fun receipt =>
            modify (fun s =>
              with_total (PrimFloat.sub (_total s)
                            (Number env (receipt_amount receipt))) s))
        else ret tt)
  | None => ret tt
  end.

(** [initialize(id)]. *)
Definition initialize (i : string) : T unit :=
  call (LicensingInitialize i (publishingId (key env)))
       (fun h => licensing_initialize env h i (publishingId (key env))) ;;
  modify (with_id (Some i)) ;;
  call (CaptureInitialize (scanKey (key env)) (intelKey (key env)))
       (fun h => capture_initialize env h (scanKey (key env))
                   (intelKey (key env))) ;;
  modify (with_isInitialized true) ;;
  detach retrieveTotal.

End Service.

(** A service as the constructor leaves it. *)
Definition fresh : Service :=
  {| _id := None; _title := None; _license := None;
     _isInitialized := false; _total := 0%float;
     onTotalChanged := None; calls := [] |}.

End Tiki.

(** [tiki_respects R m]: as [respects], for the monad of [TikiService]. *)
Definition tiki_respects {A : Type}
  (R : Tiki.Service -> Tiki.Service -> Prop) (m : Tiki.T A) : Prop :=
  forall s, R s (snd (m s)).

(** The id, the initialized flag and the total listener are as before. *)
Definition sameIdentity (s s' : Tiki.Service) : Prop :=
  Tiki._id s' = Tiki._id s /\
  Tiki._isInitialized s' = Tiki._isInitialized s /\
  Tiki.onTotalChanged s' = Tiki.onTotalChanged s.

(** A license, once cached, is still the cached one. *)
Definition licenseKept (s s' : Tiki.Service) : Prop :=
  forall l, Tiki._license s = Some l -> Tiki._license s' = Some l.

(** The condition under which [TikiService.scan] issues a payable. *)
Definition payableScan (receipt : Capture.Receipt) : bool :=
  negb (Capture.duplicate receipt)
  && negb (Capture.fraudulent receipt)
  && Tiki.ge (Capture.ocrConfidence receipt) 0.5%float.

(** ** A concrete ledger and plugin for TikiService *)

Module TikiFixture.

Definition title : Tiki.TitleRecord := {| Tiki.title_id := "title-1" |}.

Definition expired : LicenseRecord := {| license_id := "license-0" |}.

Definition current : LicenseRecord := {| license_id := "license-1" |}.

Definition three : Tiki.PayableRecord :=
  {| Tiki.payable_id := "payable-9"; Tiki.payable_amount := "3";
     Tiki.payable_type := "pt" |}.

Definition dollars : Tiki.PayableRecord :=
  {| Tiki.payable_id := "payable-1"; Tiki.payable_amount := "10";
     Tiki.payable_type := "usd" |}.

(** [Number] on the amounts that occur here. *)
Definition parse (s : string) : number :=
  if String.eqb s "3" then 3%float
  else if String.eqb s "10" then 10%float
  else if String.eqb s "1" then 1%float
  else nan.

(** Every call succeeds: the plugin scans [scanned], the sdk knows one
    title with [licenses], answers the payable [three] to every request
    and lists [listed] as the payables. *)
Definition ledger (scanned : Capture.Receipt)
  (known : option Tiki.TitleRecord) (licenses : list LicenseRecord)
  (listed : list Tiki.PayableRecord) : Tiki.Env :=
  {| Tiki.key := {| Tiki.publishingId := "publishing-id";
                    Tiki.scanKey := "scan-key";
                    Tiki.intelKey := "intel-key" |};
     Tiki.licensing_initialize := fun _ _ _ => Ok tt;
     Tiki.capture_initialize := fun _ _ _ => Ok tt;
     Tiki.capture_scan := fun _ => Ok scanned;
     Tiki.createPayable := fun _ _ _ _ _ _ => Ok three;
     Tiki.getTitle := fun _ _ => Ok known;
     Tiki.getLicenses := fun _ _ => Ok licenses;
     Tiki.getPayables := fun _ _ => Ok listed;
     Tiki.getReceipts := fun _ _ => Ok [];
     Tiki.totalListener := fun _ _ _ => Ok tt;
     Tiki.RECEIPT_SCANNED_DESCRIPTION := "Receipt scanned";
     Tiki.Number := parse;
     Tiki.numberToString := fun _ => "0.25" |}.

(** A service whose id is set, and one that has also cached [current] and
    has a total listener. *)
Definition signedIn : Tiki.Service :=
  Tiki.with_id (Some "user-1") Tiki.fresh.

Definition consented : Tiki.Service :=
  {| Tiki._id := Some "user-1"; Tiki._title := Some title;
     Tiki._license := Some current; Tiki._isInitialized := true;
     Tiki._total := 1%float; Tiki.onTotalChanged := Some 7;
     Tiki.calls := [] |}.

End TikiFixture.

(** ** ReceiptService, earlier revision

    The revision of the service that links e-mail accounts only: it scans
    without a scan type, scrapes the inboxes of the linked accounts through
    a callback, and passes an absent account on as [undefined]. *)

Module Legacy.

(** ReceiptAccount as this revision reads it. *)
Record ReceiptAccount := {
  username : string;
  password : option string;
  provider : option string;
  type : option string
}.

Record Details := {
  receipt : option Capture.Receipt;
  account : option ReceiptAccount
}.

Record Reward := {
  issuer : ReceiptEvent -> Details -> option number
}.

Inductive Call :=
| LoginWithEmail (username : string) (password provider : option string)
| RemoveEmail (username : string) (password provider : option string)
| ScrapeEmail
| VerifyEmail
| PluginScan
| GetLicense
| CreatePayable (amount : number) (description : string)
                (reference : option string)
| IssuerCall (rule : nat) (event : ReceiptEvent) (details : Details)
| AccountListenerCall (listener : Callback) (account : ReceiptAccount)
| ReceiptListenerCall (listener : Callback) (receipt : Capture.Receipt)
                      (account : option ReceiptAccount)
| ConsoleWarn (message : Warning).

(** The collaborators.  [scrapeEmail] answers the batches the plugin hands
    to the callback it was given, in the order it hands them over, before
    its promise settles. *)
Record Env := {
  loginWithEmail :
    list Call -> string -> option string -> option string -> Res unit;
  removeEmail :
    list Call -> string -> option string -> option string -> Res unit;
  scrapeEmail :
    list Call -> list (Capture.Account * list Capture.Receipt) * Res unit;
  verifyEmail : list Call -> Res (list Capture.Account);
  plugin_scan : list Call -> Res Capture.Receipt;
  sdk_id : string;
  getLicense : list Call -> Res (option LicenseRecord);
  createPayable : list Call -> number -> string -> option string -> Res unit;
  rewards : list Reward;
  accountListener : list Call -> Callback -> ReceiptAccount -> Res unit;
  receiptListener :
    list Call -> Callback -> Capture.Receipt -> option ReceiptAccount ->
    Res unit;
  now : list Call -> Date;
  (* ReceiptAccount.fromCapture and HistoryEvent.name *)
  fromCapture : Capture.Account -> Res ReceiptAccount;
  historyEventName : HistoryEvent -> string
}.

Record State := {
  _accounts : list ReceiptAccount;
  _onAccountListeners : list (string * Callback);
  _onReceiptListeners : list (string * Callback);
  history : list HistoryEvent;
  log : list Call
}.

Definition with_accounts (l : list ReceiptAccount) (st : State) : State :=
  {| _accounts := l;
     _onAccountListeners := _onAccountListeners st;
     _onReceiptListeners := _onReceiptListeners st;
     history := history st;
     log := log st |}.

Definition with_onAccountListeners (m : list (string * Callback))
  (st : State) : State :=
  {| _accounts := _accounts st;
     _onAccountListeners := m;
     _onReceiptListeners := _onReceiptListeners st;
     history := history st;
     log := log st |}.

Definition with_onReceiptListeners (m : list (string * Callback))
  (st : State) : State :=
  {| _accounts := _accounts st;
     _onAccountListeners := _onAccountListeners st;
     _onReceiptListeners := m;
     history := history st;
     log := log st |}.

Definition with_history (h : list HistoryEvent) (st : State) : State :=
  {| _accounts := _accounts st;
     _onAccountListeners := _onAccountListeners st;
     _onReceiptListeners := _onReceiptListeners st;
     history := h;
     log := log st |}.

Definition with_log (l : list Call) (st : State) : State :=
  {| _accounts := _accounts st;
     _onAccountListeners := _onAccountListeners st;
     _onReceiptListeners := _onReceiptListeners st;
     history := history st;
     log := l |}.

Definition logged (c : Call) (st : State) : State :=
  with_log (log st ++ [c]) st.

(** The monad of this revision: as [M], over its own [State]. *)
Definition L (A : Type) : Type := State -> Res A * State.

Definition ret {A : Type} (a : A) : L A := fun st => (Ok a, st).

Definition bind {A B : Type} (m : L A) (f : A -> L B) : L B :=
  fun st =>
    match m st with
    | (Ok a, st') => f a st'
    | (Throw e, st') => (Throw e, st')
    end.

Declare Scope legacy_scope.
Delimit Scope legacy_scope with legacy.
Notation "x <- m ;; k" := (bind m (fun x => k))
  (at level 61, m at next level, right associativity) : legacy_scope.
Notation "m ;; k" := (bind m (fun _ => k))
  (at level 61, right associativity) : legacy_scope.
Local Open Scope legacy_scope.

Definition throw {A : Type} (e : JsError) : L A := fun st => (Throw e, st).

Definition lift {A : Type} (r : Res A) : L A := fun st => (r, st).

Definition gets {A : Type} (f : State -> A) : L A :=
  fun st => (Ok (f st), st).

Definition modify (f : State -> State) : L unit := fun st => (Ok tt, f st).

Definition call {A : Type} (c : Call) (answer : list Call -> Res A) : L A :=
  fun st => (answer (log st), logged c st).

(** A call that is not awaited; see [detach]. *)
Definition detach (m : L unit) : L unit :=
  fun st => (Ok tt, snd (m st)).

Fixpoint forEach {A : Type} (l : list A) (f : A -> L unit) : L unit :=
  match l with
  | [] => ret tt
  | x :: l' => f x ;; forEach l' f
  end.

(** [static readonly OCR_THRESHOLD = 0.8]. *)
#[warnings="-inexact-float"]
Definition OCR_THRESHOLD : number := 0.8%float.

Section Service.

Variable env : Env.

(** [onAccount], [onReceipt] and [get accounts()]. *)
Definition onAccount (id : string) (listener : Callback) : L unit :=
  modify (fun st =>
    with_onAccountListeners (Map_set id listener (_onAccountListeners st))
                            st).

Definition onReceipt (id : string) (listener : Callback) : L unit :=
  modify (fun st =>
    with_onReceiptListeners (Map_set id listener (_onReceiptListeners st))
                            st).

Definition accounts (st : State) : list ReceiptAccount := _accounts st.

(** [details.account?.provider?.valueOf()]. *)
Definition providerOf (details : Details) : option string :=
  match account details with
  | Some a => provider a
  | None => None
  end.

Definition referenceOf (details : Details) : option string :=
  match receipt details with
  | Some r => Capture.blinkReceiptId r
  | None => None
  end.

(** The body of the loop of [process]. *)
Definition processReward (event : ReceiptEvent) (details : Details)
  (ir : nat * Reward) : L unit :=
  let (i, reward) := ir in
  amount <- call (IssuerCall i event details)
                 (fun _ => Ok (issuer reward event details)) ;;
  match amount with
  | Some amount =>
      today <- gets (fun st => now env (log st)) ;;
      let historyEvent :=
        Build_HistoryEvent amount today event (providerOf details) in
      call (CreatePayable amount (historyEventName env historyEvent)
                          (referenceOf details))
           (fun h => createPayable env h amount
                       (historyEventName env historyEvent)
                       (referenceOf details)) ;;
      modify (fun st => with_history (history st ++ [historyEvent]) st)
  | None => ret tt
  end.

(** [process(event, details)]. *)
Definition process (event : ReceiptEvent) (details : Details) : L unit :=
  forEach (indexed (rewards env)) (processReward event details).

(** [account != undefined ? ReceiptAccount.fromCapture(account)
    : undefined]. *)
Definition converted (account : option Capture.Account)
  : L (option ReceiptAccount) :=
  match account with
  | Some account => a <- lift (fromCapture env account) ;; ret (Some a)
  | None => ret None
  end.

(** [addReceipt(receipt, account?)]. *)
Definition addReceipt (receipt : Capture.Receipt)
  (account : option Capture.Account) : L unit :=
  if negb (Capture.duplicate receipt) && negb (Capture.fraudulent receipt)
  then
    a <- converted account ;;
    process SCAN {| receipt := Some receipt; account := a |} ;;
    listeners <- gets _onReceiptListeners ;;
    forEach listeners (fun kv =>
      a <- converted account ;;
      call (ReceiptListenerCall (snd kv) receipt a)
           (fun h => receiptListener env h (snd kv) receipt a))
  else
    call (ConsoleWarn (Rejected (Capture.duplicate receipt)
                                (Capture.fraudulent receipt)
                                (Capture.ocrConfidence receipt)))
         (fun _ => Ok tt).

(** [scan()]. *)
Definition scan : L unit :=
  license <- call GetLicense (getLicense env) ;;
  match license with
  | Some _ =>
      receipt <- call PluginScan (plugin_scan env) ;;
      if gt (Capture.ocrConfidence receipt) OCR_THRESHOLD
      then addReceipt receipt None
      else call (ConsoleWarn (LowConfidence (Capture.ocrConfidence receipt)))
                (fun _ => Ok tt)
  | None =>
      throw (Error ("No license found for " ++ sdk_id env
                      ++ ". User must first consent to the program."))
  end.

(** [scrape()]: the callback, run on each batch the plugin hands over,
    starts [addReceipt] on every receipt of the batch without awaiting
    it; the promise of the plugin is the promise of [scrape]. *)
Definition scrape : L unit :=
  fun st =>
    let (batches, outcome) := scrapeEmail env (log st) in
    (forEach batches (fun batch =>
       forEach (snd batch) (fun receipt =>
         detach (addReceipt receipt (Some (fst batch))))) ;;
     lift outcome) (logged ScrapeEmail st).

(** [addAccount(account)]. *)
Definition addAccount (account : ReceiptAccount) : L unit :=
  modify (fun st => with_accounts (_accounts st ++ [account]) st) ;;
  listeners <- gets _onAccountListeners ;;
  forEach listeners (fun kv =>
    call (AccountListenerCall (snd kv) account)
         (fun h => accountListener env h (snd kv) account)) ;;
  detach scrape.

(** [load()]. *)
Definition load : L unit :=
  verified <- call VerifyEmail (verifyEmail env) ;;
  forEach verified (fun account =>
    a <- lift (fromCapture env account) ;;
    addAccount a).

(** The accounts [removeAccount] keeps. *)
Definition kept (account acc : ReceiptAccount) : bool :=
  negb (String.eqb (username acc) (username account))
  && neq (type acc) (type account).

(** [removeAccount(account)]. *)
Definition removeAccount (account : ReceiptAccount) : L unit :=
  modify (fun st => with_accounts (filter (kept account) (_accounts st)) st) ;;
  listeners <- gets _onAccountListeners ;;
  forEach listeners (fun kv =>
    call (AccountListenerCall (snd kv) account)
         (fun h => accountListener env h (snd kv) account)).

(** [login(account)] and [logout(account)]. *)
Definition login (account : ReceiptAccount) : L unit :=
  call (LoginWithEmail (username account) (password account)
                       (provider account))
       (fun h => loginWithEmail env h (username account) (password account)
                   (provider account)) ;;
  addAccount account ;;
  process LINK {| receipt := None; account := Some account |}.

Definition logout (account : ReceiptAccount) : L unit :=
  call (RemoveEmail (username account) (password account)
                    (provider account))
       (fun h => removeEmail env h (username account) (password account)
                   (provider account)) ;;
  removeAccount account ;;
  process UNLINK {| receipt := None; account := Some account |}.

End Service.

(** The number of times the plugin was asked to scrape. *)
Definition scrapes (l : list Call) : nat :=
  List.length (filter (fun c => match c with
                                | ScrapeEmail => true
                                | _ => false
                                end) l).

(** The calls that hand [receipt] and [account] to the receipt listeners of
    a registry. *)
Definition receiptCalls (receipt : Capture.Receipt)
  (account : option ReceiptAccount) (registry : list (string * Callback))
  : list Call :=
  map (fun kv => ReceiptListenerCall (snd kv) receipt account) registry.

(** The calls that announce [account] to the account listeners. *)
Definition notifications (account : ReceiptAccount)
  (registry : list (string * Callback)) : list Call :=
  map (fun kv => AccountListenerCall (snd kv) account) registry.

(** The calls of the decision loop, and the amounts of the payables. *)
Definition payables (l : list Call) : list number :=
  flat_map (fun c => match c with
                     | CreatePayable a _ _ => [a]
                     | _ => []
                     end) l.

End Legacy.

(** [calm st st']: from [st] to [st'] the account cache and the registries
    are unchanged and the log has only gained calls other than
    [scrapeEmail]. *)
Definition calm (st st' : Legacy.State) : Prop :=
  Legacy._accounts st' = Legacy._accounts st /\
  Legacy._onAccountListeners st' = Legacy._onAccountListeners st /\
  Legacy._onReceiptListeners st' = Legacy._onReceiptListeners st /\
  exists added,
    Legacy.log st' = (Legacy.log st ++ added)%list /\
    Legacy.scrapes added = 0.

(** [calmly m]: whatever its outcome, [m] takes a state to a [calm] one. *)
Definition calmly {A : Type} (m : Legacy.L A) : Prop :=
  forall st, calm st (snd (m st)).


(** ** A concrete host for the earlier revision *)

Module LegacyFixture.

Definition dana : Capture.Account :=
  {| Capture.username := "dana"; Capture.type := Some "GMAIL";
     Capture.isVerified := true |}.

Definition eli : Capture.Account :=
  {| Capture.username := "eli"; Capture.type := Some "OUTLOOK";
     Capture.isVerified := true |}.

(** A stand-in for [ReceiptAccount.fromCapture]. *)
Definition normalize (a : Capture.Account) : Legacy.ReceiptAccount :=
  {| Legacy.username := Capture.username a; Legacy.password := None;
     Legacy.provider := Capture.type a; Legacy.type := Some "EMAIL" |}.

(** Two points for every SCAN, whatever the account. *)
Definition perScan : Legacy.Reward :=
  {| Legacy.issuer := fun ev _ => match ev with
                                  | SCAN => Some 2%float
                                  | _ => None
                                  end |}.

(** Every call succeeds; the plugin has verified [verified], and each
    scrape hands over one batch, for [dana], with [scraped]. *)
Definition host (verified : list Capture.Account)
  (scraped : list Capture.Receipt) : Legacy.Env :=
  {| Legacy.loginWithEmail := fun _ _ _ _ => Ok tt;
     Legacy.removeEmail := fun _ _ _ _ => Ok tt;
     Legacy.scrapeEmail := fun _ => ([(dana, scraped)], Ok tt);
     Legacy.verifyEmail := fun _ => Ok verified;
     Legacy.plugin_scan := fun _ => Ok Fixture.sharp;
     Legacy.sdk_id := "user-1";
     Legacy.getLicense := fun _ => Ok Fixture.licensed;
     Legacy.createPayable := fun _ _ _ _ => Ok tt;
     Legacy.rewards := [perScan];
     Legacy.accountListener := fun _ _ _ => Ok tt;
     Legacy.receiptListener := fun _ _ _ _ => Ok tt;
     Legacy.now := fun h => Z.of_nat (List.length h);
     Legacy.fromCapture := fun a => Ok (normalize a);
     Legacy.historyEventName := Fixture.eventName |}.

(** A service with one account listener and one receipt listener. *)
Definition service : Legacy.State :=
  {| Legacy._accounts := [];
     Legacy._onAccountListeners := [("ui", 1)];
     Legacy._onReceiptListeners := [("ui", 3)];
     Legacy.history := [];
     Legacy.log := [] |}.

End LegacyFixture.

(** ** Hosts in which something fails *)

Module Faulty.

Definition down : JsError := Error "network unreachable".

(** The capture plugin rejects every call; the rest is [Fixture.quiet]. *)
Definition offline : Env :=
  {| plugin_initialize := fun _ _ _ => Throw down;
     plugin_login := fun _ _ _ _ => Throw down;
     plugin_logout := fun _ _ _ _ => Throw down;
     plugin_accounts := fun _ => Throw down;
     plugin_scan := fun _ _ _ => Throw down;
     sdk_id := sdk_id Fixture.quiet;
     sdk_getLicense := sdk_getLicense Fixture.quiet;
     sdk_ingest := sdk_ingest Fixture.quiet;
     sdk_createPayable := sdk_createPayable Fixture.quiet;
     rewards := rewards Fixture.quiet;
     accountListener := accountListener Fixture.quiet;
     receiptListener := receiptListener Fixture.quiet;
     now := now Fixture.quiet;
     fromValue := fromValue Fixture.quiet;
     historyEventName := historyEventName Fixture.quiet |}.

(** The ledger refuses to ingest receipts. *)
Definition closedLedger : Env :=
  {| plugin_initialize := plugin_initialize Fixture.quiet;
     plugin_login := plugin_login Fixture.quiet;
     plugin_logout := plugin_logout Fixture.quiet;
     plugin_accounts := plugin_accounts Fixture.quiet;
     plugin_scan := plugin_scan Fixture.quiet;
     sdk_id := sdk_id Fixture.quiet;
     sdk_getLicense := sdk_getLicense Fixture.quiet;
     sdk_ingest := fun _ _ => Throw (Error "ledger closed");
     sdk_createPayable := sdk_createPayable Fixture.quiet;
     rewards := rewards Fixture.quiet;
     accountListener := accountListener Fixture.quiet;
     receiptListener := receiptListener Fixture.quiet;
     now := now Fixture.quiet;
     fromValue := fromValue Fixture.quiet;
     historyEventName := historyEventName Fixture.quiet |}.

(** The account listener 2 throws; listener 1 returns. *)
Definition brittle : Env :=
  {| plugin_initialize := plugin_initialize Fixture.quiet;
     plugin_login := plugin_login Fixture.quiet;
     plugin_logout := plugin_logout Fixture.quiet;
     plugin_accounts := plugin_accounts Fixture.quiet;
     plugin_scan := plugin_scan Fixture.quiet;
     sdk_id := sdk_id Fixture.quiet;
     sdk_getLicense := sdk_getLicense Fixture.quiet;
     sdk_ingest := sdk_ingest Fixture.quiet;
     sdk_createPayable := sdk_createPayable Fixture.quiet;
     rewards := rewards Fixture.quiet;
     accountListener := fun _ cb _ =>
       if Nat.eqb cb 2 then Throw (Error "listener failed") else Ok tt;
     receiptListener := receiptListener Fixture.quiet;
     now := now Fixture.quiet;
     fromValue := fromValue Fixture.quiet;
     historyEventName := historyEventName Fixture.quiet |}.

(** The account a lenient [fromValue] makes of [undefined]. *)
Definition nobody : ReceiptAccount :=
  {| username := ""; password := None;
     accountType := {| type := None; key := None |};
     isVerified := false |}.

(** A licensed host that scans [scanned] and whose [fromValue] accepts
    [undefined]. *)
Definition lenient (scanned : Capture.Receipt) : Env :=
  {| plugin_initialize := plugin_initialize Fixture.quiet;
     plugin_login := plugin_login Fixture.quiet;
     plugin_logout := plugin_logout Fixture.quiet;
     plugin_accounts := plugin_accounts Fixture.quiet;
     plugin_scan := fun _ _ _ => Ok {| Capture.receipt := scanned |};
     sdk_id := sdk_id Fixture.quiet;
     sdk_getLicense := sdk_getLicense Fixture.quiet;
     sdk_ingest := sdk_ingest Fixture.quiet;
     sdk_createPayable := sdk_createPayable Fixture.quiet;
     rewards := rewards Fixture.quiet;
     accountListener := accountListener Fixture.quiet;
     receiptListener := receiptListener Fixture.quiet;
     now := now Fixture.quiet;
     fromValue := fun a =>
       match a with
       | Some _ => Fixture.normalize a
       | None => Ok nobody
       end;
     historyEventName := historyEventName Fixture.quiet |}.

(** What [Fixture.normalize] makes of a persisted account. *)
Definition converted (a : Capture.Account) : ReceiptAccount :=
  {| username := Capture.username a; password := None;
     accountType := {| type := Capture.type a; key := None |};
     isVerified := Capture.isVerified a |}.

End Faulty.

(** ** Properties *)

Section Properties.

Variable env : Env.

Lemma with_log_same (st : State) : with_log (log st) st = st.
Proof. destruct st; reflexivity. Qed.

(** Neither guard of [scan] holds for a non-empty literal other than
    ['PHYSICAL']. *)
Lemma scan_guards_false (s : string) :
  s <> "PHYSICAL" -> s <> "" ->
  strictEq (Some s) "PHYSICAL" = false /\ negb (truthy (Some s)) = false.
Proof.
  intros Hp He; simpl; split.
  - now apply String.eqb_neq.
  - apply negb_false_iff, negb_true_iff. now apply String.eqb_neq.
Qed.

Lemma scan_other_noop (s : string) (account : option ReceiptAccount)
  (st : State) :
  s <> "PHYSICAL" -> s <> "" ->
  scan env (Some s) account st = (Ok tt, st).
Proof.
  intros Hp He.
  destruct (scan_guards_false Hp He) as [H1 H2].
  unfold scan. rewrite H1, H2. reflexivity.
Qed.

Lemma scan_ONLINE_noop (account : option ReceiptAccount) (st : State) :
  scan env (Some "ONLINE") account st = (Ok tt, st).
Proof. reflexivity. Qed.

(** C9: for every defined scan type other than ['PHYSICAL'] (a scan type
    is a string literal, hence not the empty string; in particular
    ['ONLINE'], the value [accounts] and [addAccount] pass), [scan]
    resolves and leaves the whole state as it was: nothing is asked of
    the capture plugin or of the ledger, no receipt is added, and the
    account cache, both listener registries and the history are
    untouched. *)
Theorem scan_defined_not_physical_is_noop
  (s : string) (account : option ReceiptAccount) (st : State) :
  s <> "PHYSICAL" -> s <> "" ->
  strictEq (Some s) "PHYSICAL" = false /\
  negb (truthy (Some s)) = false /\
  scan env (Some s) account st = (Ok tt, st) /\
  scan env (Some "ONLINE") account st = (Ok tt, st).
Proof.
  intros Hp He.
  destruct (scan_guards_false Hp He) as [H1 H2].
  split; [exact H1 | split; [exact H2 | split]].
  - now apply scan_other_noop.
  - apply scan_ONLINE_noop.
Qed.

(** C1: a receipt flagged duplicate or fraudulent is dropped by
    [addReceipt] with the diagnostic message only: the state is the one
    before the call with one [console.warn] logged, so no payable is
    requested, no reward rule is evaluated and no receipt listener is
    invoked. *)
Theorem addReceipt_rejects_flagged
  (r : Capture.Receipt) (account : option Capture.Account) (st : State) :
  Capture.duplicate r = true \/ Capture.fraudulent r = true ->
  let warning := ConsoleWarn (Rejected (Capture.duplicate r)
                                       (Capture.fraudulent r)
                                       (Capture.ocrConfidence r)) in
  addReceipt env r account st = (Ok tt, logged warning st) /\
  payables [warning] = [] /\
  issuerCalls [warning] = [] /\
  receiptNotifications [warning] = [].
Proof.
  intros H warning. unfold addReceipt.
  assert (G : negb (Capture.duplicate r) && negb (Capture.fraudulent r)
              = false).
  { destruct H as [H | H]; rewrite H; simpl; trivial.
    apply andb_false_r. }
  rewrite G. repeat split.
Qed.

(** C4: without an active license, [scan('PHYSICAL')] rejects with the
    consent-missing error that names [sdk.id]; the only call made is
    [getLicense], the capture plugin is not asked to scan, and the
    account cache, the registries and the history are as before. *)
Theorem scan_physical_without_license
  (account : option ReceiptAccount) (st : State) :
  sdk_getLicense env (log st) = Ok None ->
  scan env (Some "PHYSICAL") account st =
    (Throw (Error ("No license found for " ++ sdk_id env
                     ++ ". User must first consent to the program.")),
     logged SdkGetLicense st) /\
  pluginScans (log (snd (scan env (Some "PHYSICAL") account st)))
    = pluginScans (log st) /\
  _accounts (snd (scan env (Some "PHYSICAL") account st)) = _accounts st /\
  history (snd (scan env (Some "PHYSICAL") account st)) = history st.
Proof.
  intros H.
  assert (E : scan env (Some "PHYSICAL") account st =
    (Throw (Error ("No license found for " ++ sdk_id env
                     ++ ". User must first consent to the program.")),
     logged SdkGetLicense st)).
  { unfold scan, bind, call; simpl. rewrite H. reflexivity. }
  rewrite E; simpl. repeat split; trivial.
  unfold pluginScans. rewrite flat_map_app; simpl. apply app_nil_r.
Qed.

(** C8: [logout()] with no argument asks the capture plugin for a full
    logout and then empties the account cache; that request is the only
    call made, so no listener is invoked and no reward rule runs. *)
Theorem logout_all_clears_cache (st : State) :
  plugin_logout env (log st) None None None = Ok tt ->
  logout env None st =
    (Ok tt, with_accounts [] (logged (PluginLogout None None None) st)) /\
  cachedAccounts (snd (logout env None st)) = [] /\
  log (snd (logout env None st))
    = (log st ++ [PluginLogout None None None])%list.
Proof.
  intros H.
  assert (E : logout env None st =
    (Ok tt, with_accounts [] (logged (PluginLogout None None None) st))).
  { unfold logout, bind, call. rewrite H. reflexivity. }
  rewrite E. repeat split.
Qed.

(** *** The decision loop *)

Lemma extend_state (st : State) (l1 l2 : list Effect)
  (h1 h2 : list HistoryEvent) :
  let st1 := with_history (history st ++ h1) (with_log (log st ++ l1) st) in
  with_history (history st1 ++ h2) (with_log (log st1 ++ l2) st1)
  = with_history (history st ++ h1 ++ h2)
      (with_log (log st ++ l1 ++ l2) st).
Proof.
  destruct st; unfold with_history, with_log; simpl.
  now rewrite !app_assoc.
Qed.

Lemma process_from (ev : ReceiptEvent) (d : Details) :
  (forall h a n r, sdk_createPayable env h a n r = Ok tt) ->
  forall (rs : list Reward) (first : nat) (st : State),
  exists calls records,
    forEach (combine (seq first (List.length rs)) rs)
            (processReward env ev d) st
    = (Ok tt, with_history (history st ++ records)
                (with_log (log st ++ calls) st)) /\
    Issued ev d first rs calls records.
Proof.
  intros Hpay rs; induction rs as [| r rs IH]; intros first st.
  - exists [], []; split.
    + simpl. unfold ret. rewrite !app_nil_r.
      destruct st; reflexivity.
    + split; simpl; auto.
  - simpl List.length; simpl seq; simpl combine.
    cbn [forEach]. unfold bind at 1.
    unfold processReward at 1. unfold bind at 1, call at 1.
    destruct (issuer r ev d) as [a |] eqn:Hi.
    + unfold bind at 1, gets at 1. unfold bind at 1, call at 1.
      rewrite Hpay. unfold modify.
      set (h := {| amount := a; date := now env (log (logged (IssuerCall
                     first ev d) st)); event := ev;
                   provider := providerOf d |}).
      set (I := IssuerCall first ev d).
      set (P := SdkCreatePayable a (historyEventName env h)
                  (referenceOf d)).
      set (st1 := with_history _ _).
      destruct (IH (S first) st1) as (calls & records & E & [R1 R2 R3 R4 R5]).
      exists (I :: P :: calls), (h :: records); split.
      * rewrite E. f_equal.
        replace st1 with
          (with_history (history st ++ [h])
             (with_log (log st ++ [I; P]) st)).
        -- apply (extend_state st [I; P] calls [h] records).
        -- subst st1; destruct st; unfold with_history, with_log, logged;
             simpl. now rewrite <- app_assoc.
      * split.
        -- simpl. now rewrite R1.
        -- simpl. unfold fired in *. simpl. rewrite Hi. simpl. now rewrite R2.
        -- simpl. unfold fired in *. simpl. rewrite Hi. simpl. now rewrite R3.
        -- constructor; auto.
        -- simpl. exact R5.
    + unfold ret.
      set (I := IssuerCall first ev d).
      destruct (IH (S first) (logged I st))
        as (calls & records & E & [R1 R2 R3 R4 R5]).
      exists (I :: calls), records; split.
      * rewrite E. f_equal.
        destruct st; unfold with_history, with_log, logged; simpl.
        now rewrite <- app_assoc.
      * split.
        -- simpl. now rewrite R1.
        -- simpl. unfold fired in *. simpl. rewrite Hi. simpl. exact R2.
        -- unfold fired in *. simpl. rewrite Hi. simpl. exact R3.
        -- exact R4.
        -- simpl. exact R5.
Qed.

(** C2: when the ledger accepts the payables, [process(event, details)]
    resolves after evaluating every configured rule once, in order, on
    that event and those details; the payables it requests are, in
    order, the amounts of the rules that answered a number, and the
    history gains one record per such rule, with that amount, the event
    and the provider of the account.  A rule that answers [undefined]
    adds neither. *)
Theorem process_fans_out (ev : ReceiptEvent) (d : Details) (st : State) :
  (forall h a n r, sdk_createPayable env h a n r = Ok tt) ->
  exists calls records,
    process env ev d st
    = (Ok tt, with_history (history st ++ records)
                (with_log (log st ++ calls) st)) /\
    issuerCalls calls
    = map (fun i => (i, ev, d)) (seq 0 (List.length (rewards env))) /\
    payables calls = fired (rewards env) ev d /\
    map amount records = fired (rewards env) ev d /\
    Forall (fun h => event h = ev /\ provider h = providerOf d) records.
Proof.
  intros Hpay.
  destruct (process_from ev d Hpay (rewards env) 0 st)
    as (calls & records & E & [R1 R2 R3 R4 R5]).
  exists calls, records. unfold process, indexed. auto.
Qed.

(** *** What a computation may add to the log *)

Lemma emits_silent {A : Type} (P : Effect -> Prop) (m : M A) :
  (forall st, log (snd (m st)) = log st) -> emits P m.
Proof.
  intros H st; exists []; rewrite H, app_nil_r; auto.
Qed.

Lemma emits_ret {A : Type} (P : Effect -> Prop) (a : A) : emits P (ret a).
Proof. now apply emits_silent. Qed.

Lemma emits_throw {A : Type} (P : Effect -> Prop) (e : JsError) :
  emits P (throw (A := A) e).
Proof. now apply emits_silent. Qed.

Lemma emits_lift {A : Type} (P : Effect -> Prop) (r : Res A) :
  emits P (lift r).
Proof. now apply emits_silent. Qed.

Lemma emits_gets {A : Type} (P : Effect -> Prop) (f : State -> A) :
  emits P (gets f).
Proof. now apply emits_silent. Qed.

Lemma emits_modify (P : Effect -> Prop) (f : State -> State) :
  (forall st, log (f st) = log st) -> emits P (modify f).
Proof. intros H; apply emits_silent; exact H. Qed.

Lemma emits_call {A : Type} (P : Effect -> Prop) (e : Effect)
  (answer : list Effect -> Res A) :
  P e -> emits P (call e answer).
Proof. intros H st; exists [e]; simpl; auto. Qed.

Lemma emits_bind {A B : Type} (P : Effect -> Prop) (m : M A)
  (f : A -> M B) :
  emits P m -> (forall a, emits P (f a)) -> emits P (bind m f).
Proof.
  intros Hm Hf st. unfold bind.
  destruct (Hm st) as (l1 & E1 & F1).
  destruct (m st) as [[a | e] st1]; simpl in E1.
  - destruct (Hf a st1) as (l2 & E2 & F2).
    exists (l1 ++ l2)%list; split.
    + now rewrite E2, E1, app_assoc.
    + now apply Forall_app.
  - exists l1; auto.
Qed.

Lemma emits_try_catch {A : Type} (P : Effect -> Prop) (m : M A)
  (h : JsError -> M A) :
  emits P m -> (forall e, emits P (h e)) -> emits P (try_catch m h).
Proof.
  intros Hm Hh st. unfold try_catch.
  destruct (Hm st) as (l1 & E1 & F1).
  destruct (m st) as [[a | e] st1]; simpl in E1.
  - exists l1; auto.
  - destruct (Hh e st1) as (l2 & E2 & F2).
    exists (l1 ++ l2)%list; split.
    + now rewrite E2, E1, app_assoc.
    + now apply Forall_app.
Qed.

Lemma emits_forEach {A : Type} (P : Effect -> Prop) (l : list A)
  (f : A -> M unit) :
  (forall x, emits P (f x)) -> emits P (forEach l f).
Proof.
  intros Hf; induction l as [| x l IH]; simpl.
  - apply emits_ret.
  - apply emits_bind; auto.
Qed.

Lemma emits_weaken {A : Type} (P Q : Effect -> Prop) (m : M A) :
  (forall e, P e -> Q e) -> emits P m -> emits Q m.
Proof.
  intros H Hm st. destruct (Hm st) as (l & E & F).
  exists l; split; trivial. eapply Forall_impl; eauto.
Qed.

Lemma process_emits (ev : ReceiptEvent) (d : Details) :
  emits decision (process env ev d).
Proof.
  unfold process. apply emits_forEach. intros [i r].
  unfold processReward.
  apply emits_bind; [now apply emits_call |].
  intros [a |]; [| apply emits_ret].
  apply emits_bind; [apply emits_gets |]. intros today.
  apply emits_bind; [now apply emits_call |]. intros _.
  now apply emits_modify.
Qed.

Lemma decision_no_account_listener (l : list Effect) :
  Forall decision l -> accountNotifications l = [].
Proof.
  induction 1 as [| e l He _ IH]; trivial.
  unfold accountNotifications in *; simpl. rewrite IH.
  destruct e; simpl in *; tauto.
Qed.

Lemma accountNotifications_app (l1 l2 : list Effect) :
  accountNotifications (l1 ++ l2)
  = (accountNotifications l1 ++ accountNotifications l2)%list.
Proof. apply flat_map_app. Qed.

(** *** Accounts *)

Lemma accountNotifications_notifications (account : ReceiptAccount)
  (registry : list (string * Callback)) :
  accountNotifications (notifications account registry)
  = map (fun kv => (snd kv, account)) registry.
Proof.
  induction registry as [| kv l IH]; simpl; trivial.
  fold (notifications account l). unfold accountNotifications in *.
  simpl. now rewrite IH.
Qed.

(** The filter of [removeAccount] keeps an account only when it differs from
    the given one in both fields. *)
Lemma kept_iff (account acc : ReceiptAccount) :
  kept account acc = true <->
  username acc <> username account /\
  type (accountType acc) <> type (accountType account).
Proof.
  unfold kept. rewrite andb_true_iff, negb_true_iff, String.eqb_neq.
  assert (N : forall a b : option string, neq a b = true <-> a <> b).
  { intros [x |] [y |]; simpl; try (split; congruence).
    rewrite negb_true_iff, String.eqb_neq. split; congruence. }
  now rewrite N.
Qed.

Lemma notify_all (account : ReceiptAccount) :
  (forall h cb, accountListener env h cb account = Ok tt) ->
  forall (registry : list (string * Callback)) (st : State),
    forEach registry (fun kv =>
      call (AccountListenerCall (snd kv) account)
           (fun h => accountListener env h (snd kv) account)) st
    = (Ok tt, with_log (log st ++ notifications account registry) st).
Proof.
  intros Hl registry; induction registry as [| kv l IH]; intros st.
  - simpl. unfold ret. now rewrite app_nil_r, with_log_same.
  - cbn [forEach]. unfold bind, call. rewrite Hl, IH.
    f_equal. unfold with_log, logged; simpl. now rewrite <- app_assoc.
Qed.

Lemma removeAccount_ok (account : ReceiptAccount) (st : State) :
  (forall h cb, accountListener env h cb account = Ok tt) ->
  removeAccount env account st
  = (Ok tt,
     with_log (log st ++ notifications account (_onAccountListeners st))
       (with_accounts (filter (kept account) (_accounts st)) st)).
Proof.
  intros Hl. unfold removeAccount, bind, modify, gets.
  now rewrite notify_all.
Qed.

(** C10: [logout(account)] invokes every registered account listener once
    with that account, in registration order, whatever the account cache
    holds (empty or not, matching the account or not); the calls that
    follow, those of [process], invoke no account listener. *)
Theorem logout_account_notifies_every_listener
  (account : ReceiptAccount) (st : State) :
  plugin_logout env (log st) (Some (username account)) (password account)
                (key (accountType account)) = Ok tt ->
  (forall h cb, accountListener env h cb account = Ok tt) ->
  exists rest,
    log (snd (logout env (Some account) st))
    = (log st
       ++ PluginLogout (Some (username account)) (password account)
                       (key (accountType account))
       :: notifications account (_onAccountListeners st) ++ rest)%list /\
    accountNotifications rest = [] /\
    accountNotifications
      (notifications account (_onAccountListeners st) ++ rest)
    = map (fun kv => (snd kv, account)) (_onAccountListeners st).
Proof.
  intros Hout Hl.
  unfold logout. unfold bind at 1, call at 1. rewrite Hout.
  unfold bind at 1. rewrite removeAccount_ok by exact Hl.
  match goal with
  | |- context [process env ?ev ?d ?s] =>
      destruct (process_emits ev d s) as (rest & E & F)
  end.
  exists rest. rewrite E; simpl.
  pose proof (decision_no_account_listener F) as Hq.
  repeat split; trivial.
  - now rewrite <- !app_assoc.
  - rewrite accountNotifications_app, Hq, app_nil_r.
    apply accountNotifications_notifications.
Qed.

(** *** Scanning *)

Lemma bind_ret_tt (m : M unit) (st : State) :
  bind m (fun _ => ret tt) st = m st.
Proof.
  unfold bind, ret. destruct (m st) as [[[] | e] st']; reflexivity.
Qed.

Lemma bind_call_first {A B : Type} (e : Effect)
  (answer : list Effect -> Res A) (f : A -> M B) (st : State) :
  (forall a, emits (fun _ => True) (f a)) ->
  exists rest,
    log (snd (bind (call e answer) f st)) = (log st ++ e :: rest)%list.
Proof.
  intros Hf. unfold bind, call.
  destruct (answer (log st)) as [a | err].
  - destruct (Hf a (logged e st)) as (rest & E & _).
    exists rest. rewrite E. simpl. now rewrite <- app_assoc.
  - exists []. reflexivity.
Qed.

(** An admitted receipt is first handed to [sdk.ingest]. *)
Lemma addReceipt_admitted_ingests (r : Capture.Receipt)
  (account : option Capture.Account) (st : State) :
  Capture.duplicate r = false -> Capture.fraudulent r = false ->
  exists rest,
    log (snd (addReceipt env r account st))
    = (log st ++ SdkIngest r :: rest)%list.
Proof.
  intros Hd Hf. unfold addReceipt. rewrite Hd, Hf. simpl.
  apply bind_call_first. intros _.
  apply emits_bind; [apply emits_lift |]. intros a.
  apply emits_bind.
  { eapply emits_weaken; [| apply process_emits]. trivial. }
  intros _. apply emits_bind; [apply emits_gets |]. intros listeners.
  apply emits_forEach. intros kv.
  apply emits_bind; [apply emits_lift |]. intros a'.
  now apply emits_call.
Qed.

(** C3: on the PHYSICAL path with an active license, the scanned receipt
    goes to [addReceipt] exactly when its [ocrConfidence] is strictly above
    [OCR_THRESHOLD] (0.9): above it, [scan] is [addReceipt] on that
    receipt; otherwise [scan] resolves, without an exception, after a
    single warning, and neither the ledger nor a reward rule has seen the
    receipt. *)
Theorem scan_physical_confidence_gate
  (account : option ReceiptAccount) (st : State)
  (license : LicenseRecord) (scanned : Capture.ScanResult) :
  sdk_getLicense env (log st) = Ok (Some license) ->
  plugin_scan env (log st ++ [SdkGetLicense]) "PHYSICAL" None = Ok scanned ->
  let r := Capture.receipt scanned in
  let st' := logged (PluginScan "PHYSICAL" None) (logged SdkGetLicense st) in
  (gt (Capture.ocrConfidence r) OCR_THRESHOLD = true ->
   scan env (Some "PHYSICAL") account st = addReceipt env r None st') /\
  (gt (Capture.ocrConfidence r) OCR_THRESHOLD = false ->
   scan env (Some "PHYSICAL") account st
   = (Ok tt,
      logged (ConsoleWarn (LowConfidence (Capture.ocrConfidence r))) st') /\
   issuerCalls [ConsoleWarn (LowConfidence (Capture.ocrConfidence r))] = []).
Proof.
  intros Hlic Hscan r st'.
  assert (E : scan env (Some "PHYSICAL") account st
    = (if gt (Capture.ocrConfidence r) OCR_THRESHOLD
       then addReceipt env r None
       else call (ConsoleWarn (LowConfidence (Capture.ocrConfidence r)))
                 (fun _ => Ok tt)) st').
  { unfold scan. simpl strictEq. simpl truthy. cbv iota.
    simpl negb. cbv iota. rewrite bind_ret_tt.
    unfold bind at 1, call at 1. rewrite Hlic.
    unfold bind at 1, call at 1. simpl log. rewrite Hscan.
    reflexivity. }
  split; intros Hc; rewrite E, Hc; auto.
Qed.

(** C7: [scan(undefined, account)] asks the capture plugin for an online
    scan of that account and hands the receipt to [addReceipt] whatever its
    [ocrConfidence]: the state after [scan] is the state after
    [addReceipt] (not awaited, so [scan] itself resolves), and a receipt
    that is neither duplicate nor fraudulent is ingested right after the
    plugin call, however low its confidence. *)
Theorem scan_online_has_no_confidence_gate
  (account : option ReceiptAccount) (st : State)
  (scanned : Capture.ScanResult) :
  plugin_scan env (log st) "ONLINE" account = Ok scanned ->
  let r := Capture.receipt scanned in
  scan env None account st
  = (Ok tt,
     snd (addReceipt env r None (logged (PluginScan "ONLINE" account) st))) /\
  (Capture.duplicate r = false -> Capture.fraudulent r = false ->
   exists rest,
     log (snd (scan env None account st))
     = (log st ++ PluginScan "ONLINE" account :: SdkIngest r :: rest)%list).
Proof.
  intros Hscan r.
  assert (E : scan env None account st
    = (Ok tt, snd (addReceipt env r None
                     (logged (PluginScan "ONLINE" account) st)))).
  { unfold scan. simpl strictEq. simpl truthy. cbv iota.
    simpl negb. cbv iota.
    unfold bind at 1, ret at 1.
    unfold bind at 1, call at 1. rewrite Hscan. reflexivity. }
  split; [exact E |].
  intros Hd Hf. rewrite E. simpl snd.
  destruct (addReceipt_admitted_ingests r None
              (logged (PluginScan "ONLINE" account) st) Hd Hf)
    as (rest & R).
  exists rest. rewrite R. simpl. now rewrite <- app_assoc.
Qed.

(** No call of [accounts] ever reaches the scan of the capture plugin. *)
Lemma accounts_never_scans :
  emits (fun e => forall t a, e <> PluginScan t a) (accounts env).
Proof.
  unfold accounts.
  apply emits_try_catch; [| intros e; apply emits_throw].
  apply emits_bind; [apply emits_call; discriminate |]. intros persisted.
  apply emits_forEach. intros account.
  apply emits_bind; [apply emits_lift |]. intros a.
  apply emits_bind.
  - unfold addAccount.
    apply emits_bind; [now apply emits_modify |]. intros _.
    apply emits_bind; [apply emits_gets |]. intros listeners.
    apply emits_bind.
    + apply emits_forEach. intros kv. apply emits_call; discriminate.
    + intros _. now apply emits_silent.
  - intros _. apply emits_bind; [apply emits_lift |]. intros a'.
    now apply emits_silent.
Qed.

End Properties.

(** ** The service on the concrete host *)

Section Examples.

Import Fixture.

(** C5, on the code: with alice and bob on the same provider, and alice a
    second time on another provider, [logout(alice)] removes all three
    accounts; only carol, who shares neither field with alice, stays. *)
Theorem logout_removes_accounts_sharing_one_field :
  cachedAccounts
    (snd (logout quiet (Some alice)
            (service [alice; bob; alice_outlook; carol])))
  = [carol] /\
  cachedAccounts (snd (logout quiet (Some alice) (service [alice; bob])))
  = [].
Proof. split; reflexivity. Qed.

(** C6, on the code: from an empty cache, with two persisted accounts,
    [accounts()] leaves two accounts in the cache and notifies each of the
    two registered listeners twice, but the capture plugin is asked for no
    scan at all: each [scan('ONLINE', account)] it starts returns at
    once. *)
Theorem accounts_two_persisted_no_scan :
  let after :=
    snd (accounts (host licensed sharp [persisted alice; persisted carol])
                  (service [])) in
  List.length (cachedAccounts after) = 2 /\
  map fst (accountNotifications (log after)) = [1; 2; 1; 2] /\
  pluginScans (log after) = [] /\
  log after
  = PluginAccounts
    :: (notifications {| username := "alice"; password := None;
                         accountType := {| type := Some "GMAIL";
                                           key := None |};
                         isVerified := true |}
                      [("ui", 1); ("sync", 2)]
        ++ notifications {| username := "carol"; password := None;
                            accountType := {| type := Some "OUTLOOK";
                                              key := None |};
                            isVerified := true |}
                         [("ui", 1); ("sync", 2)])%list.
Proof. repeat split. Qed.

(** *** Instances of the theorems *)

Lemma addReceipt_rejects_flagged_example :
  (Capture.duplicate resubmitted = true
   \/ Capture.fraudulent resubmitted = true) /\
  addReceipt quiet resubmitted None (service [alice])
  = (Ok tt,
     logged (ConsoleWarn (Rejected true false 0.96875%float))
            (service [alice])).
Proof.
  split; [left; reflexivity |].
  apply (addReceipt_rejects_flagged quiet resubmitted None (service [alice])).
  left; reflexivity.
Defined.

Lemma process_fans_out_example :
  exists calls records,
    process quiet LINK {| receipt := None; account := Some alice |}
            (service [alice])
    = (Ok tt, with_history (records) (with_log calls (service [alice]))) /\
    issuerCalls calls
    = map (fun i => (i, LINK, {| receipt := None; account := Some alice |}))
          [0; 1; 2] /\
    payables calls = [1%float; 5%float] /\
    map amount records = [1%float; 5%float] /\
    Forall (fun h => event h = LINK /\ provider h = Some "GMAIL") records.
Proof.
  apply (process_fans_out quiet LINK
           {| receipt := None; account := Some alice |} (service [alice])).
  intros; reflexivity.
Defined.

Lemma scan_physical_confidence_gate_example :
  gt (Capture.ocrConfidence blurred) OCR_THRESHOLD = false /\
  scan (host licensed blurred []) (Some "PHYSICAL") None (service [])
  = (Ok tt,
     logged (ConsoleWarn (LowConfidence 0.25%float))
       (logged (PluginScan "PHYSICAL" None)
          (logged SdkGetLicense (service [])))).
Proof.
  split; [reflexivity |].
  destruct (scan_physical_confidence_gate (host licensed blurred []) None
              (service []) (license := {| license_id := "license-1" |})
              (scanned := {| Capture.receipt := blurred |})
              eq_refl eq_refl) as [_ Low].
  apply Low. reflexivity.
Defined.

Lemma scan_physical_without_license_example :
  scan (host None sharp []) (Some "PHYSICAL") None (service [alice])
  = (Throw (Error
       "No license found for user-1. User must first consent to the program."),
     logged SdkGetLicense (service [alice])).
Proof.
  apply (scan_physical_without_license (host None sharp []) None
           (service [alice]) eq_refl).
Defined.

Lemma scan_online_has_no_confidence_gate_example :
  exists rest,
    log (snd (scan (host licensed blurred []) None (Some alice) (service [])))
    = PluginScan "ONLINE" (Some alice) :: SdkIngest blurred :: rest.
Proof.
  apply (scan_online_has_no_confidence_gate (host licensed blurred [])
           (Some alice) (service [])
           (scanned := {| Capture.receipt := blurred |}) eq_refl);
    reflexivity.
Defined.

Lemma logout_all_clears_cache_example :
  cachedAccounts (snd (logout quiet None (service [alice; bob; carol]))) = []
  /\ log (snd (logout quiet None (service [alice; bob; carol])))
     = [PluginLogout None None None].
Proof.
  apply (logout_all_clears_cache quiet (service [alice; bob; carol]) eq_refl).
Defined.

Lemma scan_defined_not_physical_is_noop_example :
  scan quiet (Some "EMAIL") (Some alice) (service [alice])
  = (Ok tt, service [alice]) /\
  scan quiet (Some "ONLINE") (Some alice) (service [alice])
  = (Ok tt, service [alice]).
Proof.
  apply (scan_defined_not_physical_is_noop quiet (s := "EMAIL") (Some alice)
           (service [alice])); discriminate.
Defined.

Lemma logout_account_notifies_every_listener_example :
  exists rest,
    log (snd (logout quiet (Some alice) (service [])))
    = PluginLogout (Some "alice") (Some "a-secret") (Some "gmail")
      :: (notifications alice [("ui", 1); ("sync", 2)] ++ rest)%list /\
    accountNotifications rest = [] /\
    accountNotifications (notifications alice [("ui", 1); ("sync", 2)] ++ rest)
    = [(1, alice); (2, alice)].
Proof.
  apply (logout_account_notifies_every_listener quiet alice (service [])).
  - reflexivity.
  - intros; reflexivity.
Defined.

End Examples.

(** ** Further properties of the service *)

Section Registries.

(** [Map.prototype.set] on a registry whose ids are distinct. *)
Lemma Map_set_ids (id : string) (listener : Callback)
  (registry : list (string * Callback)) :
  (In id (ids registry) -> ids (Map_set id listener registry) = ids registry)
  /\ (~ In id (ids registry) ->
      Map_set id listener registry = (registry ++ [(id, listener)])%list).
Proof.
  induction registry as [| [k v] m [IH1 IH2]]; simpl.
  - split; [intros [] | reflexivity].
  - destruct (String.eqb_spec k id) as [-> | Hk]; simpl.
    + split; [reflexivity | intros H; exfalso; apply H; now left].
    + split.
      * intros [H | H]; [contradiction |]. now rewrite (IH1 H).
      * intros H. rewrite IH2; [reflexivity |]. intros G; apply H; now right.
Qed.

Lemma Map_set_In (id : string) (listener : Callback)
  (registry : list (string * Callback)) :
  In (id, listener) (Map_set id listener registry).
Proof.
  induction registry as [| [k v] m IH]; simpl; [now left |].
  destruct (String.eqb k id); simpl; auto.
Qed.

Lemma Map_set_other (id : string) (listener : Callback)
  (registry : list (string * Callback)) (id' : string) (l' : Callback) :
  id' <> id ->
  (In (id', l') (Map_set id listener registry) <-> In (id', l') registry).
Proof.
  intros Hne. induction registry as [| [k v] m IH]; simpl.
  - split; [intros [H | []]; congruence | intros []].
  - destruct (String.eqb_spec k id) as [-> | Hk]; simpl.
    + split; (intros [H | H]; [congruence | now right]).
    + rewrite IH. reflexivity.
Qed.

Lemma Map_set_NoDup (id : string) (listener : Callback)
  (registry : list (string * Callback)) :
  NoDup (ids registry) -> NoDup (ids (Map_set id listener registry)).
Proof.
  intros H.
  destruct (in_dec string_dec id (ids registry)) as [Hin | Hout].
  - now rewrite (proj1 (Map_set_ids id listener registry) Hin).
  - rewrite (proj2 (Map_set_ids id listener registry) Hout).
    unfold ids. rewrite map_app. simpl.
    apply NoDup_app; [exact H | repeat constructor; intros [] |].
    intros x Hx [<- | []]. apply Hout, Hx.
Qed.

Lemma NoDup_ids_functional (registry : list (string * Callback))
  (id : string) (l l' : Callback) :
  NoDup (ids registry) -> In (id, l) registry -> In (id, l') registry ->
  l = l'.
Proof.
  induction registry as [| [k v] m IH]; simpl; [intros _ [] |].
  intros H. inversion H as [| ? ? Hk Hm]; subst.
  intros [E | Hl] [E' | Hl'].
  - congruence.
  - inversion E; subst. exfalso; apply Hk.
    apply (in_map fst) in Hl'. exact Hl'.
  - inversion E'; subst. exfalso; apply Hk.
    apply (in_map fst) in Hl. exact Hl.
  - now apply IH.
Qed.

(** What [set] does to a registry, in one statement. *)
Lemma Map_set_registers (id : string) (listener : Callback)
  (registry : list (string * Callback)) :
  let registry' := Map_set id listener registry in
  In (id, listener) registry' /\
  (forall id' l', id' <> id ->
     (In (id', l') registry' <-> In (id', l') registry)) /\
  (In id (ids registry) -> ids registry' = ids registry) /\
  (~ In id (ids registry) ->
     registry' = (registry ++ [(id, listener)])%list) /\
  (NoDup (ids registry) ->
     NoDup (ids registry') /\
     forall l', In (id, l') registry' -> l' = listener).
Proof.
  intros registry'. subst registry'.
  split; [apply Map_set_In |].
  split; [intros id' l' Hne; now apply Map_set_other |].
  split; [apply Map_set_ids |].
  split; [apply Map_set_ids |].
  intros Hnd. split; [now apply Map_set_NoDup |].
  intros l' Hl'.
  apply (NoDup_ids_functional (Map_set id listener registry) id).
  - now apply Map_set_NoDup.
  - exact Hl'.
  - apply Map_set_In.
Qed.

(** X1: [onAccount(id, listener)] always succeeds and touches the account
    registry only.  Afterwards [id] is bound to [listener]; every other id
    keeps its listener; an id already in use keeps its place in the
    notification order (the ids are the same list) and a new id goes
    last; on a registry with distinct ids the ids stay distinct and [id]
    is bound to nothing but [listener]. *)
Theorem onAccount_replaces_or_appends
  (id : string) (listener : Callback) (st : State) :
  let before := _onAccountListeners st in
  let after := _onAccountListeners (snd (onAccount id listener st)) in
  onAccount id listener st = (Ok tt, with_onAccountListeners after st) /\
  In (id, listener) after /\
  (forall id' l', id' <> id -> (In (id', l') after <-> In (id', l') before))
  /\ (In id (ids before) -> ids after = ids before) /\
  (~ In id (ids before) -> after = (before ++ [(id, listener)])%list) /\
  (NoDup (ids before) ->
     NoDup (ids after) /\ forall l', In (id, l') after -> l' = listener).
Proof.
  intros before after. split; [reflexivity |].
  apply (Map_set_registers id listener before).
Qed.

(** X2: [onReceipt(id, listener)] always succeeds and touches the receipt
    registry only, with the same replace-in-place or append-last
    behaviour: [id] is bound to [listener], the other ids keep their
    listeners and their order, and distinct ids stay distinct. *)
Theorem onReceipt_replaces_or_appends
  (id : string) (listener : Callback) (st : State) :
  let before := _onReceiptListeners st in
  let after := _onReceiptListeners (snd (onReceipt id listener st)) in
  onReceipt id listener st = (Ok tt, with_onReceiptListeners after st) /\
  In (id, listener) after /\
  (forall id' l', id' <> id -> (In (id', l') after <-> In (id', l') before))
  /\ (In id (ids before) -> ids after = ids before) /\
  (~ In id (ids before) -> after = (before ++ [(id, listener)])%list) /\
  (NoDup (ids before) ->
     NoDup (ids after) /\ forall l', In (id, l') after -> l' = listener).
Proof.
  intros before after. split; [reflexivity |].
  apply (Map_set_registers id listener before).
Qed.

End Registries.


(** *** What the operations leave alone *)

Section Respects.

Variable R : State -> State -> Prop.
Hypothesis R_refl : forall st, R st st.
Hypothesis R_trans : forall s1 s2 s3, R s1 s2 -> R s2 s3 -> R s1 s3.
Hypothesis R_logged : forall e st, R st (logged e st).

Lemma respects_silent {A : Type} (m : M A) :
  (forall st, snd (m st) = st) -> respects R m.
Proof. intros H st. rewrite H. apply R_refl. Qed.

Lemma respects_call {A : Type} (e : Effect)
  (answer : list Effect -> Res A) :
  respects R (call e answer).
Proof. intros st. apply R_logged. Qed.

Lemma respects_modify (f : State -> State) :
  (forall st, R st (f st)) -> respects R (modify f).
Proof. intros H st. apply H. Qed.

Lemma respects_bind {A B : Type} (m : M A) (f : A -> M B) :
  respects R m -> (forall a, respects R (f a)) -> respects R (bind m f).
Proof.
  intros Hm Hf st. unfold bind. specialize (Hm st).
  destruct (m st) as [[a | e] st1]; simpl in Hm; [| exact Hm].
  eapply R_trans; [exact Hm | apply Hf].
Qed.

Lemma respects_try_catch {A : Type} (m : M A) (h : JsError -> M A) :
  respects R m -> (forall e, respects R (h e)) -> respects R (try_catch m h).
Proof.
  intros Hm Hh st. unfold try_catch. specialize (Hm st).
  destruct (m st) as [[a | e] st1]; simpl in Hm; [exact Hm |].
  eapply R_trans; [exact Hm | apply Hh].
Qed.

Lemma respects_detach (m : M unit) : respects R m -> respects R (detach m).
Proof. intros Hm st. exact (Hm st). Qed.

Lemma respects_forEach {A : Type} (l : list A) (f : A -> M unit) :
  (forall x, respects R (f x)) -> respects R (forEach l f).
Proof.
  intros Hf; induction l as [| x l IH]; simpl.
  - now apply respects_silent.
  - apply respects_bind; auto.
Qed.

Variable env : Env.

Hypothesis R_history :
  forall st h, R st (with_history (history st ++ [h]) st).

Lemma respects_process (ev : ReceiptEvent) (d : Details) :
  respects R (process env ev d).
Proof.
  unfold process. apply respects_forEach. intros [i r].
  unfold processReward.
  apply respects_bind; [apply respects_call |].
  intros [a |]; [| now apply respects_silent].
  apply respects_bind; [now apply respects_silent |]. intros today.
  apply respects_bind; [apply respects_call |]. intros _.
  apply respects_modify. intros st. apply R_history.
Qed.

Lemma respects_addReceipt (r : Capture.Receipt)
  (a : option Capture.Account) :
  respects R (addReceipt env r a).
Proof.
  unfold addReceipt.
  destruct (negb (Capture.duplicate r) && negb (Capture.fraudulent r));
    [| apply respects_call].
  apply respects_bind; [apply respects_call |]. intros _.
  apply respects_bind; [now apply respects_silent |]. intros a1.
  apply respects_bind; [apply respects_process |]. intros _.
  apply respects_bind; [now apply respects_silent |]. intros listeners.
  apply respects_forEach. intros kv.
  apply respects_bind; [now apply respects_silent |]. intros a2.
  apply respects_call.
Qed.

Lemma respects_scan (scanType : option string)
  (account : option ReceiptAccount) :
  respects R (scan env scanType account).
Proof.
  unfold scan. apply respects_bind.
  - destruct (strictEq scanType "PHYSICAL"); [| now apply respects_silent].
    apply respects_bind; [apply respects_call |].
    intros [license |]; [| now apply respects_silent].
    apply respects_bind; [apply respects_call |]. intros scanned.
    destruct (gt _ _); [apply respects_addReceipt | apply respects_call].
  - intros _. destruct (negb (truthy scanType));
      [| now apply respects_silent].
    apply respects_bind; [apply respects_call |]. intros scanned.
    apply respects_detach, respects_addReceipt.
Qed.

Lemma respects_initialize (scanKey intelKey : string) :
  respects R (initialize env scanKey intelKey).
Proof.
  unfold initialize. apply respects_try_catch; [apply respects_call |].
  intros e. now apply respects_silent.
Qed.

Hypothesis R_accounts : forall st l, R st (with_accounts l st).

Lemma respects_notify (account : ReceiptAccount)
  (registry : list (string * Callback)) :
  respects R (forEach registry (fun kv =>
    call (AccountListenerCall (snd kv) account)
         (fun h => accountListener env h (snd kv) account))).
Proof. apply respects_forEach. intros kv. apply respects_call. Qed.

Lemma respects_addAccount (account : ReceiptAccount) :
  respects R (addAccount env account).
Proof.
  unfold addAccount.
  apply respects_bind; [apply respects_modify; intros st; apply R_accounts |].
  intros _. apply respects_bind; [now apply respects_silent |].
  intros listeners. apply respects_bind; [apply respects_notify |].
  intros _. apply respects_detach, respects_scan.
Qed.

Lemma respects_removeAccount (account : ReceiptAccount) :
  respects R (removeAccount env account).
Proof.
  unfold removeAccount.
  apply respects_bind; [apply respects_modify; intros st; apply R_accounts |].
  intros _. apply respects_bind; [now apply respects_silent |].
  intros listeners. apply respects_notify.
Qed.

Lemma respects_login (account : ReceiptAccount) :
  respects R (login env account).
Proof.
  unfold login. apply respects_bind; [apply respects_call |]. intros _.
  apply respects_bind; [apply respects_addAccount |]. intros _.
  apply respects_process.
Qed.

Lemma respects_logout (account : option ReceiptAccount) :
  respects R (logout env account).
Proof.
  unfold logout. destruct account as [account |].
  - apply respects_bind; [apply respects_call |]. intros _.
    apply respects_bind; [apply respects_removeAccount |]. intros _.
    apply respects_process.
  - apply respects_bind; [apply respects_call |]. intros _.
    apply respects_modify. intros st. apply R_accounts.
Qed.

Lemma respects_accounts : respects R (accounts env).
Proof.
  unfold accounts. apply respects_try_catch.
  - apply respects_bind; [apply respects_call |]. intros persisted.
    apply respects_forEach. intros p.
    apply respects_bind; [now apply respects_silent |]. intros a.
    apply respects_bind; [apply respects_addAccount |]. intros _.
    apply respects_bind; [now apply respects_silent |]. intros a'.
    apply respects_detach, respects_scan.
  - intros e. now apply respects_silent.
Qed.

End Respects.

Lemma settled_refl (st : State) : settled st st.
Proof.
  repeat split. exists []. now rewrite app_nil_r.
Qed.

Lemma settled_trans (s1 s2 s3 : State) :
  settled s1 s2 -> settled s2 s3 -> settled s1 s3.
Proof.
  intros (A1 & B1 & r1 & H1) (A2 & B2 & r2 & H2).
  split; [congruence | split; [congruence |]].
  exists (r1 ++ r2)%list. now rewrite H2, H1, app_assoc.
Qed.

Lemma settled_logged (e : Effect) (st : State) : settled st (logged e st).
Proof. repeat split. exists []. simpl. now rewrite app_nil_r. Qed.

Lemma settled_history (st : State) (h : HistoryEvent) :
  settled st (with_history (history st ++ [h]) st).
Proof. repeat split. now exists [h]. Qed.

Lemma settled_accounts (st : State) (l : list ReceiptAccount) :
  settled st (with_accounts l st).
Proof. repeat split. exists []. simpl. now rewrite app_nil_r. Qed.

Lemma sameCache_trans (s1 s2 s3 : State) :
  sameCache s1 s2 -> sameCache s2 s3 -> sameCache s1 s3.
Proof. unfold sameCache; congruence. Qed.

Section Frames.

Variable env : Env.

(** X3: [scan], in every mode and whatever the collaborators answer,
    leaves the account cache as it was; so do [process], [addReceipt] and
    [initialize]. *)
Theorem scanning_never_changes_the_cache
  (scanType : option string) (account : option ReceiptAccount)
  (ev : ReceiptEvent) (d : Details) (r : Capture.Receipt)
  (a : option Capture.Account) (scanKey intelKey : string) (st : State) :
  cachedAccounts (snd (scan env scanType account st)) = cachedAccounts st /\
  cachedAccounts (snd (process env ev d st)) = cachedAccounts st /\
  cachedAccounts (snd (addReceipt env r a st)) = cachedAccounts st /\
  cachedAccounts (snd (initialize env scanKey intelKey st))
  = cachedAccounts st.
Proof.
  assert (Rr : forall s, sameCache s s) by reflexivity.
  assert (Rl : forall e s, sameCache s (logged e s)) by reflexivity.
  assert (Rh : forall s h, sameCache s (with_history (history s ++ [h]) s))
    by reflexivity.
  repeat split.
  - apply (@respects_scan sameCache Rr sameCache_trans Rl env Rh).
  - apply (@respects_process sameCache Rr sameCache_trans Rl env Rh).
  - apply (@respects_addReceipt sameCache Rr sameCache_trans Rl env Rh).
  - apply (@respects_initialize sameCache Rr sameCache_trans Rl env).
Qed.

(** X4: whatever the collaborators answer, [login], [logout], [accounts],
    [scan] and [initialize] leave both listener registries as they were,
    and the history after each of them is the history before it with
    records appended: nothing is ever removed from or rewritten in it. *)
Theorem operations_keep_registries_and_append_history
  (account : ReceiptAccount) (who : option ReceiptAccount)
  (scanType : option string) (scanKey intelKey : string) (st : State) :
  settled st (snd (login env account st)) /\
  settled st (snd (logout env who st)) /\
  settled st (snd (accounts env st)) /\
  settled st (snd (scan env scanType who st)) /\
  settled st (snd (initialize env scanKey intelKey st)).
Proof.
  split; [| split; [| split; [| split]]].
  - apply (@respects_login settled settled_refl settled_trans settled_logged env
             settled_history settled_accounts).
  - apply (@respects_logout settled settled_refl settled_trans settled_logged env
             settled_history settled_accounts).
  - apply (@respects_accounts settled settled_refl settled_trans settled_logged env
             settled_history settled_accounts).
  - apply (@respects_scan settled settled_refl settled_trans settled_logged env
             settled_history).
  - apply (@respects_initialize settled settled_refl settled_trans settled_logged env).
Qed.

End Frames.

(** *** The decision loop and the ledger *)

Section Ledger.

Variable env : Env.

Lemma process_any_from (ev : ReceiptEvent) (d : Details) :
  forall (rs : list Reward) (first : nat) (st : State),
  exists calls records outcome,
    forEach (combine (seq first (List.length rs)) rs)
            (processReward env ev d) st
    = (outcome,
       with_history (history st ++ records) (with_log (log st ++ calls) st))
    /\ Forall decision calls
    /\ match outcome with
       | Ok _ =>
           payables calls = map amount records /\
           issuerCalls calls
           = map (fun i => (i, ev, d)) (seq first (List.length rs))
       | Throw _ =>
           exists a, payables calls = (map amount records ++ [a])%list
       end.
Proof.
  intros rs; induction rs as [| r rs IH]; intros first st.
  - exists [], [], (Ok tt). simpl. rewrite !app_nil_r.
    repeat split; auto. unfold ret. destruct st; reflexivity.
  - simpl List.length; simpl seq; simpl combine.
    cbn [forEach]. unfold bind at 1.
    unfold processReward at 1. unfold bind at 1, call at 1.
    set (I := IssuerCall first ev d).
    destruct (issuer r ev d) as [a |] eqn:Hi.
    + unfold bind at 1, gets at 1. unfold bind at 1, call at 1.
      set (h := {| amount := a; date := now env (log (logged I st));
                   event := ev; provider := providerOf d |}).
      set (P := SdkCreatePayable a (historyEventName env h)
                  (referenceOf d)).
      destruct (sdk_createPayable env (log (logged I st)) a
                  (historyEventName env h) (referenceOf d)) as [[] | e].
      * unfold modify.
        set (st1 := with_history _ _).
        destruct (IH (S first) st1)
          as (calls & records & outcome & E & F & G).
        exists (I :: P :: calls), (h :: records), outcome.
        split; [| split].
        -- rewrite E. f_equal.
           replace st1 with
             (with_history (history st ++ [h])
                (with_log (log st ++ [I; P]) st)).
           ++ apply (extend_state st [I; P] calls [h] records).
           ++ subst st1; destruct st; unfold with_history, with_log, logged;
                simpl. now rewrite <- app_assoc.
        -- repeat constructor; exact F.
        -- destruct outcome as [u | e].
           ++ destruct G as [G1 G2]. simpl. now rewrite G1, G2.
           ++ destruct G as (a' & G). exists a'. simpl. now rewrite G.
      * exists [I; P], [], (Throw e). simpl. rewrite app_nil_r.
        split; [| split].
        -- f_equal.
           destruct st; unfold with_history, with_log, logged; simpl.
           now rewrite <- app_assoc.
        -- repeat constructor.
        -- now exists a.
    + unfold ret.
      destruct (IH (S first) (logged I st))
        as (calls & records & outcome & E & F & G).
      exists (I :: calls), records, outcome.
      split; [| split].
      * rewrite E. f_equal.
        destruct st; unfold with_history, with_log, logged; simpl.
        now rewrite <- app_assoc.
      * constructor; [exact Logic.I | exact F].
      * destruct outcome as [u | e].
        -- destruct G as [G1 G2]. simpl. now rewrite G2.
        -- exact G.
Qed.

(** X5: whatever the ledger answers, [process] writes a history record
    only after the payable for it was accepted.  When [process] resolves,
    every rule was evaluated and the amounts of the new records are, in
    order, the amounts of the payables requested; when it rejects, the
    payables requested are those recorded followed by one more, the
    rejected one, for which no record is written.  Besides the history
    and the log nothing changes, and only issuers and [createPayable] are
    called. *)
Theorem process_records_only_accepted_payables
  (ev : ReceiptEvent) (d : Details) (st : State) :
  exists calls records outcome,
    process env ev d st
    = (outcome,
       with_history (history st ++ records) (with_log (log st ++ calls) st))
    /\ Forall decision calls
    /\ match outcome with
       | Ok _ =>
           payables calls = map amount records /\
           issuerCalls calls
           = map (fun i => (i, ev, d))
                 (seq 0 (List.length (rewards env)))
       | Throw _ =>
           exists a, payables calls = (map amount records ++ [a])%list
       end.
Proof. apply (process_any_from ev d (rewards env) 0 st). Qed.

End Ledger.

(** *** Accounts: linking and loading *)

Section Linking.

Variable env : Env.

Lemma addAccount_ok (account : ReceiptAccount) (st : State) :
  (forall h cb, accountListener env h cb account = Ok tt) ->
  addAccount env account st
  = (Ok tt,
     with_log (log st ++ notifications account (_onAccountListeners st))
       (with_accounts (_accounts st ++ [account]) st)).
Proof.
  intros Hl. unfold addAccount, bind, modify, gets.
  rewrite notify_all by exact Hl. reflexivity.
Qed.

(** Notification stops at the first listener that throws. *)
Lemma notify_stops (account : ReceiptAccount) (e : JsError)
  (cb : Callback) (id : string) (post : list (string * Callback)) :
  (forall h, accountListener env h cb account = Throw e) ->
  forall (pre : list (string * Callback)) (st : State),
    (forall h c, In c (map snd pre) ->
       accountListener env h c account = Ok tt) ->
    forEach (pre ++ (id, cb) :: post) (fun kv =>
      call (AccountListenerCall (snd kv) account)
           (fun h => accountListener env h (snd kv) account)) st
    = (Throw e,
       with_log (log st ++ notifications account pre
                 ++ [AccountListenerCall cb account]) st).
Proof.
  intros Hcb pre; induction pre as [| kv pre IH]; intros st Hpre.
  - simpl. unfold bind, call. rewrite Hcb. reflexivity.
  - simpl app. cbn [forEach]. unfold bind at 1, call at 1.
    rewrite Hpre by (now left).
    rewrite IH by (intros h c Hc; apply Hpre; now right).
    f_equal. unfold with_log, logged; simpl. now rewrite <- app_assoc.
Qed.

Lemma load_each (conv : Capture.Account -> ReceiptAccount) :
  (forall h cb a, accountListener env h cb a = Ok tt) ->
  forall (persisted : list Capture.Account) (st : State),
    (forall p, In p persisted -> fromValue env (Some p) = Ok (conv p)) ->
    forEach persisted (fun account =>
      a <- lift (fromValue env (Some account)) ;;
      addAccount env a ;;
      a' <- lift (fromValue env (Some account)) ;;
      detach (scan env (Some "ONLINE") (Some a'))) st
    = (Ok tt,
       with_log
         (log st ++ flat_map (fun p => notifications (conv p)
                                         (_onAccountListeners st)) persisted)
         (with_accounts (_accounts st ++ map conv persisted) st)).
Proof.
  intros Hl persisted; induction persisted as [| p l IH]; intros st Hconv.
  - simpl. unfold ret. rewrite !app_nil_r. destruct st; reflexivity.
  - cbn [forEach]. unfold bind at 1. cbv beta.
    unfold bind at 1, lift at 1.
    assert (Hp : fromValue env (Some p) = Ok (conv p))
      by (apply Hconv; now left).
    rewrite Hp.
    unfold bind at 1. rewrite addAccount_ok by (intros; apply Hl).
    unfold bind at 1, lift at 1.
    unfold detach. rewrite scan_ONLINE_noop. cbn [snd].
    rewrite IH by (intros q Hq; apply Hconv; now right).
    f_equal. destruct st; unfold with_log, with_accounts; simpl.
    now rewrite <- !app_assoc.
Qed.

(** X6: when the plugin lists its persisted accounts, each converts with
    [fromValue] and the listeners return, [accounts()] resolves with the
    converted accounts appended to the cache, in the order listed and
    without looking at what the cache already holds (a second call adds
    them again); each account is announced to every account listener, in
    registration order, and nothing else is called. *)
Theorem accounts_appends_every_persisted_account
  (conv : Capture.Account -> ReceiptAccount)
  (persisted : list Capture.Account) (st : State) :
  plugin_accounts env (log st) = Ok persisted ->
  (forall p, In p persisted -> fromValue env (Some p) = Ok (conv p)) ->
  (forall h cb a, accountListener env h cb a = Ok tt) ->
  accounts env st
  = (Ok tt,
     with_log
       (log st ++ PluginAccounts
        :: flat_map (fun p => notifications (conv p)
                                (_onAccountListeners st)) persisted)
       (with_accounts (_accounts st ++ map conv persisted) st)).
Proof.
  intros Hp Hconv Hl.
  unfold accounts, try_catch. unfold bind at 1, call at 1. rewrite Hp.
  rewrite (load_each conv Hl) by exact Hconv.
  f_equal. destruct st; unfold with_log, with_accounts, logged; simpl.
  now rewrite <- app_assoc.
Qed.

(** X7: every error [accounts()] throws is the wrapped one: its message is
    ['Could not load the accounts; Error: '] followed by the cause, be it
    a rejection of the plugin, a failed conversion or a throwing listener.
    When the plugin itself rejects, that rejection is the cause and the
    cache is untouched. *)
Theorem accounts_wraps_every_failure (st : State) (e : JsError) :
  fst (accounts env st) = Throw e ->
  exists cause,
    e = Error ("Could not load the accounts; Error: " ++ toString cause) /\
    (forall c, plugin_accounts env (log st) = Throw c ->
       c = cause /\ snd (accounts env st) = logged PluginAccounts st).
Proof.
  unfold accounts, try_catch.
  match goal with
  | |- context [bind ?m ?f st] => destruct (bind m f st) as [[u | c0] st1] eqn:B
  end; simpl; [discriminate |].
  intros H. injection H as <-. exists c0. split; [reflexivity |].
  intros c Hc. unfold bind, call in B. rewrite Hc in B.
  injection B as <- <-. auto.
Qed.

Lemma login_ok
  (account : ReceiptAccount) (st : State) :
  plugin_login env (log st) (username account) (password account)
               (key (accountType account)) = Ok tt ->
  (forall h cb, accountListener env h cb (verified account) = Ok tt) ->
  (forall h a n r, sdk_createPayable env h a n r = Ok tt) ->
  let linked := {| receipt := None; account := Some (verified account) |} in
  exists calls records,
    login env account st
    = (Ok tt,
       with_history (history st ++ records)
         (with_log
            (log st
             ++ PluginLogin (username account) (password account)
                            (key (accountType account))
             :: notifications (verified account) (_onAccountListeners st)
             ++ calls)
            (with_accounts (_accounts st ++ [verified account]) st))) /\
    Issued LINK linked 0 (rewards env) calls records.
Proof.
  intros Hin Hl Hpay linked.
  unfold login. unfold bind at 1, call at 1. rewrite Hin.
  unfold bind at 1. fold (verified account).
  rewrite addAccount_ok by exact Hl.
  unfold process, indexed.
  match goal with
  | |- context [forEach _ _ ?s] =>
      destruct (process_from env LINK linked Hpay (rewards env) 0 s)
        as (calls & records & E & I)
  end.
  exists calls, records. split; [| exact I].
  unfold linked in *. rewrite E. f_equal.
  destruct st; unfold with_history, with_log, with_accounts, logged; simpl.
  now rewrite <- !app_assoc.
Qed.

(** X8: when the plugin accepts the credentials, the listeners return and
    the ledger accepts the payables, [login(account)] resolves with the
    account, marked verified, appended to the cache; every account
    listener was called once with it, in registration order; then every
    rule was evaluated on LINK and one payable and one history record
    were issued per rule that answered a number.  No scan is requested
    from the plugin. *)
Theorem login_caches_announces_and_rewards
  (account : ReceiptAccount) (st : State) :
  plugin_login env (log st) (username account) (password account)
               (key (accountType account)) = Ok tt ->
  (forall h cb, accountListener env h cb (verified account) = Ok tt) ->
  (forall h a n r, sdk_createPayable env h a n r = Ok tt) ->
  let linked := {| receipt := None; account := Some (verified account) |} in
  exists calls records,
    login env account st
    = (Ok tt,
       with_history (history st ++ records)
         (with_log
            (log st
             ++ PluginLogin (username account) (password account)
                            (key (accountType account))
             :: notifications (verified account) (_onAccountListeners st)
             ++ calls)
            (with_accounts (_accounts st ++ [verified account]) st))) /\
    Issued LINK linked 0 (rewards env) calls records.
Proof. apply login_ok. Qed.

(** X9: when the plugin rejects the credentials, [login] rejects with the
    same error and nothing but the plugin call has happened: the account
    is not cached, no listener is called, no rule is evaluated. *)
Theorem login_rejected_changes_nothing
  (account : ReceiptAccount) (st : State) (e : JsError) :
  plugin_login env (log st) (username account) (password account)
               (key (accountType account)) = Throw e ->
  login env account st
  = (Throw e,
     logged (PluginLogin (username account) (password account)
                         (key (accountType account))) st).
Proof.
  intros H. unfold login, bind at 1, call at 1. now rewrite H.
Qed.

(** X10: when an account listener throws during [login], the listeners
    registered after it are not called and no LINK reward is issued, yet
    the account is already in the cache: [login] rejects with the
    listener's error from a state in which the account was added. *)
Theorem login_with_throwing_listener_caches_unrewarded
  (account : ReceiptAccount) (st : State) (e : JsError)
  (pre post : list (string * Callback)) (id : string) (cb : Callback) :
  plugin_login env (log st) (username account) (password account)
               (key (accountType account)) = Ok tt ->
  _onAccountListeners st = (pre ++ (id, cb) :: post)%list ->
  (forall h c, In c (map snd pre) ->
     accountListener env h c (verified account) = Ok tt) ->
  (forall h, accountListener env h cb (verified account) = Throw e) ->
  login env account st
  = (Throw e,
     with_log
       (log st
        ++ PluginLogin (username account) (password account)
                       (key (accountType account))
        :: notifications (verified account) pre
        ++ [AccountListenerCall cb (verified account)])
       (with_accounts (_accounts st ++ [verified account]) st)).
Proof.
  intros Hin Hreg Hpre Hcb.
  unfold login. unfold bind at 1, call at 1. rewrite Hin.
  unfold bind at 1. fold (verified account).
  unfold addAccount. unfold bind at 1, modify at 1.
  unfold bind at 1, gets at 1. simpl _onAccountListeners. rewrite Hreg.
  unfold bind at 1.
  rewrite (@notify_stops (verified account) e cb id post Hcb pre)
    by exact Hpre.
  f_equal. destruct st; unfold with_log, with_accounts, logged; simpl.
  now rewrite <- !app_assoc.
Qed.

End Linking.

(** *** Accounts: unlinking *)

Section Unlinking.

Variable env : Env.

Lemma filter_all {A : Type} (f : A -> bool) (l : list A) :
  (forall x, In x l -> f x = true) -> filter f l = l.
Proof.
  induction l as [| x l IH]; simpl; intros H; [reflexivity |].
  rewrite H by (now left). f_equal. apply IH. intros y Hy. apply H.
  now right.
Qed.

Lemma logout_ok (account : ReceiptAccount) (st : State) :
  plugin_logout env (log st) (Some (username account)) (password account)
                (key (accountType account)) = Ok tt ->
  (forall h cb, accountListener env h cb account = Ok tt) ->
  (forall h a n r, sdk_createPayable env h a n r = Ok tt) ->
  let unlinked := {| receipt := None; account := Some account |} in
  exists calls records,
    logout env (Some account) st
    = (Ok tt,
       with_history (history st ++ records)
         (with_log
            (log st
             ++ PluginLogout (Some (username account)) (password account)
                             (key (accountType account))
             :: notifications account (_onAccountListeners st) ++ calls)
            (with_accounts (filter (kept account) (_accounts st)) st))) /\
    Issued UNLINK unlinked 0 (rewards env) calls records.
Proof.
  intros Hout Hl Hpay unlinked.
  unfold logout. unfold bind at 1, call at 1. rewrite Hout.
  unfold bind at 1. rewrite removeAccount_ok by exact Hl.
  unfold process, indexed.
  match goal with
  | |- context [forEach _ _ ?s] =>
      destruct (process_from env UNLINK unlinked Hpay (rewards env) 0 s)
        as (calls & records & E & I)
  end.
  exists calls, records. split; [| exact I].
  unfold unlinked in *. rewrite E. f_equal.
  destruct st; unfold with_history, with_log, with_accounts, logged; simpl.
  now rewrite <- !app_assoc.
Qed.

(** X11: when the plugin rejects the logout, [logout] rejects with the
    same error, for one account as for all, and the cache is as it was:
    nothing is removed, no listener is called and no UNLINK rule is
    evaluated. *)
Theorem logout_rejected_keeps_cache
  (who : option ReceiptAccount) (st : State) (e : JsError) :
  let request :=
    match who with
    | Some a => PluginLogout (Some (username a)) (password a)
                             (key (accountType a))
    | None => PluginLogout None None None
    end in
  match who with
  | Some a => plugin_logout env (log st) (Some (username a)) (password a)
                            (key (accountType a))
  | None => plugin_logout env (log st) None None None
  end = Throw e ->
  logout env who st = (Throw e, logged request st).
Proof.
  intros request H. subst request.
  destruct who as [a |]; unfold logout, bind at 1, call at 1;
    now rewrite H.
Qed.

(** X12: after [logout(account)], whether the UNLINK payables were accepted
    or not, the cache holds, in their order, exactly the accounts it held
    that differ from the given one both in username and in provider type;
    in particular no account with the given username is left. *)
Theorem logout_keeps_only_unrelated_accounts
  (account : ReceiptAccount) (st : State) :
  plugin_logout env (log st) (Some (username account)) (password account)
                (key (accountType account)) = Ok tt ->
  (forall h cb, accountListener env h cb account = Ok tt) ->
  let after := cachedAccounts (snd (logout env (Some account) st)) in
  after = filter (kept account) (_accounts st) /\
  (forall acc,
     In acc after <->
     In acc (_accounts st) /\
     username acc <> username account /\
     type (accountType acc) <> type (accountType account)) /\
  (forall acc, In acc after -> username acc <> username account).
Proof.
  intros Hout Hl after.
  assert (E : after = filter (kept account) (_accounts st)).
  { unfold after, logout. unfold bind at 1, call at 1. rewrite Hout.
    unfold bind at 1. rewrite removeAccount_ok by exact Hl.
    match goal with
    | |- context [process env ?ev ?d ?s] =>
        pose proof (@respects_process sameCache
                      (fun x => eq_refl) sameCache_trans
                      (fun c x => eq_refl) env (fun x h => eq_refl) ev d s)
          as F
    end.
    unfold sameCache in F. unfold cachedAccounts. rewrite F. reflexivity. }
  assert (I : forall acc,
     In acc after <->
     In acc (_accounts st) /\
     username acc <> username account /\
     type (accountType acc) <> type (accountType account)).
  { intros acc. rewrite E, filter_In, kept_iff. reflexivity. }
  split; [exact E | split; [exact I |]].
  intros acc Hacc. apply I in Hacc. tauto.
Qed.

(** X13: linking an account and unlinking it again restores the cache,
    provided no cached account shares its username or its provider type
    (and the plugin, the listeners and the ledger all answer): [login]
    followed by [logout] of the same account resolves and leaves the cache
    as it was before the [login]. *)
Theorem login_then_logout_restores_cache
  (account : ReceiptAccount) (st : State) :
  (forall h u p k, plugin_login env h u p k = Ok tt) ->
  (forall h u p k, plugin_logout env h u p k = Ok tt) ->
  (forall h cb a, accountListener env h cb a = Ok tt) ->
  (forall h a n r, sdk_createPayable env h a n r = Ok tt) ->
  (forall acc, In acc (_accounts st) ->
     username acc <> username account /\
     type (accountType acc) <> type (accountType account)) ->
  let round := login env account ;; logout env (Some account) in
  fst (round st) = Ok tt /\
  cachedAccounts (snd (round st)) = cachedAccounts st.
Proof.
  intros Hin Hout Hl Hpay Hfresh round. unfold round, bind.
  destruct (login_ok env account st (Hin _ _ _ _) (fun h cb => Hl h cb _)
              Hpay) as (c1 & r1 & E1 & _).
  rewrite E1.
  match goal with
  | |- context [logout env _ ?s] =>
      destruct (logout_ok account s (Hout _ _ _ _) (fun h cb => Hl h cb _)
                  Hpay) as (c2 & r2 & E2 & _)
  end.
  rewrite E2. split; [reflexivity |].
  unfold cachedAccounts; simpl.
  rewrite filter_app. simpl.
  assert (K : kept account (verified account) = false).
  { unfold kept, verified; simpl. now rewrite String.eqb_refl. }
  rewrite K, app_nil_r. apply filter_all.
  intros acc Hacc. apply kept_iff. now apply Hfresh.
Qed.

End Unlinking.

(** *** Receipts *)

Section Receipts.

Variable env : Env.

Lemma hand_over_all (r : Capture.Receipt)
  (account : option Capture.Account) (a : ReceiptAccount) :
  fromValue env account = Ok a ->
  (forall h cb, receiptListener env h cb r a = Ok tt) ->
  forall (registry : list (string * Callback)) (st : State),
    forEach registry (fun kv =>
      a <- lift (fromValue env account) ;;
      call (ReceiptListenerCall (snd kv) r a)
           (fun h => receiptListener env h (snd kv) r a)) st
    = (Ok tt, with_log (log st ++ receiptCalls r a registry) st).
Proof.
  intros Ha Hl registry. rewrite Ha.
  induction registry as [| kv l IH]; intros st.
  - simpl. unfold ret. now rewrite app_nil_r, with_log_same.
  - cbn [forEach]. unfold bind at 1. cbv beta.
    unfold bind at 1, lift at 1. unfold call at 1.
    rewrite Hl, IH.
    f_equal. unfold with_log, logged; simpl. now rewrite <- app_assoc.
Qed.

Lemma addReceipt_ok (r : Capture.Receipt)
  (account : option Capture.Account) (a : ReceiptAccount) (st : State) :
  Capture.duplicate r = false -> Capture.fraudulent r = false ->
  sdk_ingest env (log st) r = Ok tt ->
  fromValue env account = Ok a ->
  (forall h x n i, sdk_createPayable env h x n i = Ok tt) ->
  (forall h cb, receiptListener env h cb r a = Ok tt) ->
  let scanned := {| receipt := Some r; account := Some a |} in
  exists calls records,
    addReceipt env r account st
    = (Ok tt,
       with_history (history st ++ records)
         (with_log
            (log st ++ SdkIngest r
             :: calls ++ receiptCalls r a (_onReceiptListeners st)) st)) /\
    Issued SCAN scanned 0 (rewards env) calls records.
Proof.
  intros Hd Hf Hing Ha Hpay Hl scanned.
  pose proof (hand_over_all r account Ha Hl) as HO.
  unfold addReceipt. rewrite Hd, Hf. simpl.
  unfold bind at 1, call at 1. rewrite Hing.
  unfold bind at 1, lift at 1. rewrite Ha in *.
  unfold bind at 1. unfold process, indexed.
  destruct (process_from env SCAN scanned Hpay (rewards env) 0
              (logged (SdkIngest r) st)) as (calls & records & E & I).
  unfold scanned in *. rewrite E.
  unfold bind at 1, gets at 1.
  rewrite HO.
  exists calls, records. split; [| exact I].
  f_equal. destruct st; unfold with_history, with_log, logged; simpl.
  now rewrite <- !app_assoc.
Qed.

(** X14: a receipt that is neither duplicate nor fraudulent, when the
    ledger ingests it, its account converts, the ledger accepts the
    payables and the listeners return, is processed in this order: it is
    ingested, every rule is evaluated on SCAN with one payable and one
    history record per rule that answers a number, and only then is
    every receipt listener called once with the receipt and the account,
    in registration order. *)
Theorem addReceipt_admitted_rewards_then_notifies
  (r : Capture.Receipt) (account : option Capture.Account)
  (a : ReceiptAccount) (st : State) :
  Capture.duplicate r = false -> Capture.fraudulent r = false ->
  sdk_ingest env (log st) r = Ok tt ->
  fromValue env account = Ok a ->
  (forall h x n i, sdk_createPayable env h x n i = Ok tt) ->
  (forall h cb, receiptListener env h cb r a = Ok tt) ->
  let scanned := {| receipt := Some r; account := Some a |} in
  exists calls records,
    addReceipt env r account st
    = (Ok tt,
       with_history (history st ++ records)
         (with_log
            (log st ++ SdkIngest r
             :: calls ++ receiptCalls r a (_onReceiptListeners st)) st)) /\
    Issued SCAN scanned 0 (rewards env) calls records.
Proof. apply addReceipt_ok. Qed.

(** X15: an admitted receipt earns nothing and reaches no listener when the
    ledger refuses to ingest it, or when it is ingested but its account
    does not convert: [addReceipt] rejects with that error right after the
    [ingest] call, before any rule is evaluated. *)
Theorem addReceipt_stops_before_rewards
  (r : Capture.Receipt) (account : option Capture.Account) (st : State)
  (e : JsError) :
  Capture.duplicate r = false -> Capture.fraudulent r = false ->
  sdk_ingest env (log st) r = Throw e \/
  (sdk_ingest env (log st) r = Ok tt /\ fromValue env account = Throw e) ->
  addReceipt env r account st = (Throw e, logged (SdkIngest r) st).
Proof.
  intros Hd Hf H. unfold addReceipt. rewrite Hd, Hf. simpl.
  unfold bind at 1, call at 1.
  destruct H as [H | [H G]]; rewrite H; [reflexivity |].
  unfold bind at 1, lift at 1. now rewrite G.
Qed.

(** X16: the whole PHYSICAL path when everything succeeds: with a license,
    a scanned receipt whose confidence is above the threshold and that is
    neither duplicate nor fraudulent, [scan('PHYSICAL')] resolves after
    asking for the license, scanning, ingesting the receipt, issuing the
    SCAN rewards and calling the receipt listeners, in that order; the
    account it hands to rules and listeners is [fromValue(undefined)]. *)
Theorem scan_physical_accepted_end_to_end
  (who : option ReceiptAccount) (st : State) (license : LicenseRecord)
  (scanned : Capture.ScanResult) (a : ReceiptAccount) :
  let r := Capture.receipt scanned in
  sdk_getLicense env (log st) = Ok (Some license) ->
  plugin_scan env (log st ++ [SdkGetLicense]) "PHYSICAL" None = Ok scanned ->
  gt (Capture.ocrConfidence r) OCR_THRESHOLD = true ->
  Capture.duplicate r = false -> Capture.fraudulent r = false ->
  (forall h, sdk_ingest env h r = Ok tt) ->
  fromValue env None = Ok a ->
  (forall h x n i, sdk_createPayable env h x n i = Ok tt) ->
  (forall h cb, receiptListener env h cb r a = Ok tt) ->
  exists calls records,
    scan env (Some "PHYSICAL") who st
    = (Ok tt,
       with_history (history st ++ records)
         (with_log
            (log st ++ SdkGetLicense :: PluginScan "PHYSICAL" None
             :: SdkIngest r
             :: calls ++ receiptCalls r a (_onReceiptListeners st)) st)) /\
    Issued SCAN {| receipt := Some r; account := Some a |} 0 (rewards env)
           calls records.
Proof.
  intros r Hlic Hscan Hc Hd Hf Hing Ha Hpay Hl.
  unfold scan. simpl strictEq. simpl truthy. cbv iota.
  simpl negb. cbv iota. rewrite bind_ret_tt.
  unfold bind at 1, call at 1. rewrite Hlic.
  unfold bind at 1, call at 1. simpl log. rewrite Hscan.
  fold r. rewrite Hc.
  destruct (addReceipt_ok r None
              (logged (PluginScan "PHYSICAL" None) (logged SdkGetLicense st))
              Hd Hf (Hing _) Ha Hpay Hl) as (calls & records & E & I).
  exists calls, records. split; [| exact I].
  rewrite E. f_equal.
  destruct st; unfold with_history, with_log, logged; simpl.
  now rewrite <- !app_assoc.
Qed.

(** X17: [initialize] resolves when the plugin does, and otherwise rejects
    with a wrapped error whose message is ['Could not initialize; Error: ']
    followed by the plugin's rejection; either way the plugin call is all
    that happened. *)
Theorem initialize_wraps_rejection
  (scanKey intelKey : string) (st : State) (e : JsError) :
  fst (initialize env scanKey intelKey st) = Throw e ->
  exists cause,
    plugin_initialize env (log st) scanKey intelKey = Throw cause /\
    e = Error ("Could not initialize; Error: " ++ toString cause) /\
    snd (initialize env scanKey intelKey st)
    = logged (PluginInitialize scanKey intelKey) st.
Proof.
  unfold initialize, try_catch, call.
  destruct (plugin_initialize env (log st) scanKey intelKey) as [[] | c];
    simpl; [discriminate |].
  intros H. injection H as <-. now exists c.
Qed.

End Receipts.

(** *** Instances of the further properties *)

Section MoreExamples.

Import Fixture Faulty.

Lemma accounts_appends_every_persisted_account_example :
  accounts (host licensed sharp [persisted bob; persisted carol])
           (service [alice])
  = (Ok tt,
     with_log
       (PluginAccounts
        :: notifications (converted (persisted bob)) [("ui", 1); ("sync", 2)]
        ++ notifications (converted (persisted carol))
             [("ui", 1); ("sync", 2)])
       (with_accounts
          [alice; converted (persisted bob); converted (persisted carol)]
          (service [alice]))).
Proof.
  apply (accounts_appends_every_persisted_account
           (host licensed sharp [persisted bob; persisted carol])
           converted (persisted := [persisted bob; persisted carol])
           (service [alice])).
  - reflexivity.
  - intros p _. reflexivity.
  - intros; reflexivity.
Defined.

Lemma accounts_wraps_every_failure_example :
  exists cause,
    Error "Could not load the accounts; Error: Error: network unreachable"
    = Error ("Could not load the accounts; Error: " ++ toString cause) /\
    (forall c, plugin_accounts offline [] = Throw c ->
       c = cause /\
       snd (accounts offline (service [alice]))
       = logged PluginAccounts (service [alice])).
Proof.
  apply (accounts_wraps_every_failure offline (service [alice])).
  reflexivity.
Defined.

Lemma login_caches_announces_and_rewards_example :
  exists calls records,
    login quiet bob (service [alice])
    = (Ok tt,
       with_history records
         (with_log
            (PluginLogin "bob" (Some "b-secret") (Some "gmail")
             :: notifications (verified bob) [("ui", 1); ("sync", 2)]
             ++ calls)
            (with_accounts [alice; verified bob] (service [alice])))) /\
    Issued LINK {| receipt := None; account := Some (verified bob) |} 0
           [ruleA; ruleB; ruleC] calls records.
Proof.
  apply (login_caches_announces_and_rewards quiet bob (service [alice])).
  - reflexivity.
  - intros; reflexivity.
  - intros; reflexivity.
Defined.

Lemma login_rejected_changes_nothing_example :
  login offline bob (service [alice])
  = (Throw down,
     logged (PluginLogin "bob" (Some "b-secret") (Some "gmail"))
            (service [alice])).
Proof.
  apply (login_rejected_changes_nothing offline bob (service [alice])).
  reflexivity.
Defined.

Lemma login_with_throwing_listener_caches_unrewarded_example :
  login brittle bob (service [alice])
  = (Throw (Error "listener failed"),
     with_log
       [PluginLogin "bob" (Some "b-secret") (Some "gmail");
        AccountListenerCall 1 (verified bob);
        AccountListenerCall 2 (verified bob)]
       (with_accounts [alice; verified bob] (service [alice]))).
Proof.
  apply (@login_with_throwing_listener_caches_unrewarded brittle bob
           (service [alice]) (Error "listener failed")
           [("ui", 1)] [] "sync" 2).
  - reflexivity.
  - reflexivity.
  - intros h c [<- | []]. reflexivity.
  - intros; reflexivity.
Defined.

Lemma logout_rejected_keeps_cache_example :
  logout offline (Some alice) (service [alice; bob])
  = (Throw down,
     logged (PluginLogout (Some "alice") (Some "a-secret") (Some "gmail"))
            (service [alice; bob])) /\
  logout offline None (service [alice; bob])
  = (Throw down,
     logged (PluginLogout None None None) (service [alice; bob])).
Proof.
  split.
  - apply (logout_rejected_keeps_cache offline (Some alice)
             (service [alice; bob])). reflexivity.
  - apply (logout_rejected_keeps_cache offline None (service [alice; bob])).
    reflexivity.
Defined.

Lemma logout_keeps_only_unrelated_accounts_example :
  cachedAccounts (snd (logout quiet (Some alice) (service [carol; alice])))
  = [carol].
Proof.
  apply (logout_keeps_only_unrelated_accounts quiet alice
           (service [carol; alice])).
  - reflexivity.
  - intros; reflexivity.
Defined.

Lemma login_then_logout_restores_cache_example :
  fst ((login quiet alice ;; logout quiet (Some alice)) (service [carol]))
  = Ok tt /\
  cachedAccounts
    (snd ((login quiet alice ;; logout quiet (Some alice)) (service [carol])))
  = [carol].
Proof.
  apply (login_then_logout_restores_cache quiet alice (service [carol]));
    try (intros; reflexivity).
  intros acc [<- | []]. split; discriminate.
Defined.

Lemma addReceipt_admitted_rewards_then_notifies_example :
  exists calls records,
    addReceipt quiet sharp (Some (persisted alice)) (service [alice])
    = (Ok tt,
       with_history records
         (with_log
            (SdkIngest sharp
             :: calls ++ [ReceiptListenerCall 3 sharp
                            (converted (persisted alice))])
            (service [alice]))) /\
    Issued SCAN {| receipt := Some sharp;
                   account := Some (converted (persisted alice)) |} 0
           [ruleA; ruleB; ruleC] calls records.
Proof.
  apply (addReceipt_admitted_rewards_then_notifies quiet sharp
           (Some (persisted alice)) (a := converted (persisted alice))
           (service [alice]));
    try reflexivity; intros; reflexivity.
Defined.

Lemma addReceipt_stops_before_rewards_example :
  addReceipt closedLedger sharp None (service [alice])
  = (Throw (Error "ledger closed"), logged (SdkIngest sharp) (service [alice]))
  /\ addReceipt quiet sharp None (service [alice])
     = (Throw (Error "Cannot read properties of undefined"),
        logged (SdkIngest sharp) (service [alice])).
Proof.
  split.
  - apply (addReceipt_stops_before_rewards closedLedger sharp None
             (service [alice])); try reflexivity. left; reflexivity.
  - apply (addReceipt_stops_before_rewards quiet sharp None
             (service [alice])); try reflexivity.
    right; split; reflexivity.
Defined.

Lemma scan_physical_accepted_end_to_end_example :
  exists calls records,
    scan (lenient sharp) (Some "PHYSICAL") None (service [alice])
    = (Ok tt,
       with_history records
         (with_log
            (SdkGetLicense :: PluginScan "PHYSICAL" None :: SdkIngest sharp
             :: calls ++ [ReceiptListenerCall 3 sharp nobody])
            (service [alice]))) /\
    Issued SCAN {| receipt := Some sharp; account := Some nobody |} 0
           [ruleA; ruleB; ruleC] calls records.
Proof.
  apply (scan_physical_accepted_end_to_end (lenient sharp) None
           (service [alice]) (license := {| license_id := "license-1" |})
           (scanned := {| Capture.receipt := sharp |}) (a := nobody));
    try reflexivity; intros; reflexivity.
Defined.

Lemma initialize_wraps_rejection_example :
  exists cause,
    plugin_initialize offline [] "scan-key" "intel-key" = Throw cause /\
    Error "Could not initialize; Error: Error: network unreachable"
    = Error ("Could not initialize; Error: " ++ toString cause) /\
    snd (initialize offline "scan-key" "intel-key" (service []))
    = logged (PluginInitialize "scan-key" "intel-key") (service []).
Proof.
  apply (initialize_wraps_rejection offline "scan-key" "intel-key"
           (service [])).
  reflexivity.
Defined.

End MoreExamples.

(** ** Properties of TikiService *)

Section TikiRespects.

Variable R : Tiki.Service -> Tiki.Service -> Prop.
Hypothesis R_refl : forall s, R s s.
Hypothesis R_trans : forall s1 s2 s3, R s1 s2 -> R s2 s3 -> R s1 s3.
Hypothesis R_called : forall c s, R s (Tiki.called c s).

Lemma tiki_respects_silent {A : Type} (m : Tiki.T A) :
  (forall s, snd (m s) = s) -> tiki_respects R m.
Proof. intros H s. rewrite H. apply R_refl. Qed.

Lemma tiki_respects_call {A : Type} (c : Tiki.Call)
  (answer : list Tiki.Call -> Res A) :
  tiki_respects R (Tiki.call c answer).
Proof. intros s. apply R_called. Qed.

Lemma tiki_respects_modify (f : Tiki.Service -> Tiki.Service) :
  (forall s, R s (f s)) -> tiki_respects R (Tiki.modify f).
Proof. intros H s. apply H. Qed.

Lemma tiki_respects_bind {A B : Type} (m : Tiki.T A) (f : A -> Tiki.T B) :
  tiki_respects R m -> (forall a, tiki_respects R (f a)) ->
  tiki_respects R (Tiki.bind m f).
Proof.
  intros Hm Hf s. unfold Tiki.bind. specialize (Hm s).
  destruct (m s) as [[a | e] s1]; simpl in Hm; [| exact Hm].
  eapply R_trans; [exact Hm | apply Hf].
Qed.

Lemma tiki_respects_forEach {A : Type} (l : list A)
  (f : A -> Tiki.T unit) :
  (forall x, tiki_respects R (f x)) -> tiki_respects R (Tiki.forEach l f).
Proof.
  intros Hf; induction l as [| x l IH]; simpl.
  - now apply tiki_respects_silent.
  - apply tiki_respects_bind; auto.
Qed.

Variable env : Tiki.Env.

Hypothesis R_total : forall s t, R s (Tiki.with_total t s).

(** What follows the license in [retrieveTotal]. *)
Lemma tiki_respects_sum (payables : list Tiki.PayableRecord) :
  tiki_respects R (Tiki.forEach payables (fun payable =>
    if String.eqb (Tiki.payable_type payable) Tiki._type then
      Tiki.bind
        (Tiki.modify (fun s =>
           Tiki.with_total
             (PrimFloat.add (Tiki._total s)
                (Tiki.Number env (Tiki.payable_amount payable))) s))
        (fun _ =>
           Tiki.bind
             (Tiki.call (Tiki.GetReceipts (Tiki.payable_id payable))
                (fun h => Tiki.getReceipts env h (Tiki.payable_id payable)))
             (fun receipts =>
                Tiki.forEach receipts (fun receipt =>
                  Tiki.modify (fun s =>
                    Tiki.with_total
                      (PrimFloat.sub (Tiki._total s)
                         (Tiki.Number env (Tiki.receipt_amount receipt)))
                      s))))
    else Tiki.ret tt)).
Proof.
  apply tiki_respects_forEach. intros p.
  destruct (String.eqb _ _); [| now apply tiki_respects_silent].
  apply tiki_respects_bind;
    [apply tiki_respects_modify; intros s; apply R_total |].
  intros _. apply tiki_respects_bind; [apply tiki_respects_call |].
  intros receipts. apply tiki_respects_forEach. intros r.
  apply tiki_respects_modify; intros s; apply R_total.
Qed.

Lemma tiki_respects_adjustTotal (val : number) :
  tiki_respects R (Tiki.adjustTotal env val).
Proof.
  unfold Tiki.adjustTotal.
  apply tiki_respects_bind;
    [apply tiki_respects_modify; intros s; apply R_total |].
  intros _. apply tiki_respects_bind; [now apply tiki_respects_silent |].
  intros [cb |]; [| now apply tiki_respects_silent].
  apply tiki_respects_bind; [now apply tiki_respects_silent |].
  intros t. apply tiki_respects_call.
Qed.

Hypothesis R_title : forall s t, R s (Tiki.with_title t s).
Hypothesis R_license : forall s l, R s (Tiki.with_license l s).

Lemma tiki_respects_id : tiki_respects R Tiki.id.
Proof.
  unfold Tiki.id. apply tiki_respects_bind; [now apply tiki_respects_silent |].
  intros [i |]; now apply tiki_respects_silent.
Qed.

Lemma tiki_respects_license : tiki_respects R (Tiki.license env).
Proof.
  unfold Tiki.license.
  apply tiki_respects_bind; [now apply tiki_respects_silent |].
  intros [l |]; [now apply tiki_respects_silent |].
  apply tiki_respects_bind; [apply tiki_respects_id |]. intros i.
  apply tiki_respects_bind; [apply tiki_respects_call |].
  intros [t |]; [| now apply tiki_respects_silent].
  apply tiki_respects_bind;
    [apply tiki_respects_modify; intros s; apply R_title |].
  intros _. apply tiki_respects_bind; [apply tiki_respects_call |].
  intros ls. apply tiki_respects_bind.
  - destruct (Nat.ltb _ _); [| now apply tiki_respects_silent].
    apply tiki_respects_modify; intros s; apply R_license.
  - intros _. now apply tiki_respects_silent.
Qed.

Hypothesis R_license_call : tiki_respects R (Tiki.license env).

Lemma tiki_respects_retrieveTotal : tiki_respects R (Tiki.retrieveTotal env).
Proof.
  unfold Tiki.retrieveTotal.
  apply tiki_respects_bind; [apply R_license_call |].
  intros [l |]; [| now apply tiki_respects_silent].
  apply tiki_respects_bind; [apply tiki_respects_call |].
  intros ps. apply tiki_respects_sum.
Qed.

Hypothesis R_id : forall s i, R s (Tiki.with_id i s).
Hypothesis R_isInitialized : forall s b, R s (Tiki.with_isInitialized b s).

Lemma tiki_respects_initialize (i : string) :
  tiki_respects R (Tiki.initialize env i).
Proof.
  unfold Tiki.initialize.
  apply tiki_respects_bind; [apply tiki_respects_call |]. intros _.
  apply tiki_respects_bind;
    [apply tiki_respects_modify; intros s; apply R_id |]. intros _.
  apply tiki_respects_bind; [apply tiki_respects_call |]. intros _.
  apply tiki_respects_bind;
    [apply tiki_respects_modify; intros s; apply R_isInitialized |].
  intros _. intros s. apply (tiki_respects_retrieveTotal s).
Qed.

Lemma tiki_respects_scan : tiki_respects R (Tiki.scan env).
Proof.
  unfold Tiki.scan.
  apply tiki_respects_bind; [apply R_license_call |].
  intros [l |].
  - apply tiki_respects_bind; [apply tiki_respects_call |]. intros r.
    destruct (_ && _); [| now apply tiki_respects_silent].
    apply tiki_respects_bind; [apply tiki_respects_call |]. intros p.
    apply tiki_respects_adjustTotal.
  - apply tiki_respects_bind; [apply tiki_respects_id |]. intros i.
    now apply tiki_respects_silent.
Qed.

End TikiRespects.

Section TikiFacts.

Variable env : Tiki.Env.

Lemma tiki_bind_ok {A B : Type} (m : Tiki.T A) (f : A -> Tiki.T B)
  (s s' : Tiki.Service) (a : A) :
  m s = (Ok a, s') -> Tiki.bind m f s = f a s'.
Proof. intros H. unfold Tiki.bind. now rewrite H. Qed.

Lemma tiki_bind_throw {A B : Type} (m : Tiki.T A) (f : A -> Tiki.T B)
  (s s' : Tiki.Service) (e : JsError) :
  m s = (Throw e, s') -> Tiki.bind m f s = (Throw e, s').
Proof. intros H. unfold Tiki.bind. now rewrite H. Qed.

Lemma tiki_id_ok (s : Tiki.Service) (i : string) :
  Tiki._id s = Some i -> Tiki.id s = (Ok i, s).
Proof. intros H. unfold Tiki.id, Tiki.bind, Tiki.gets. now rewrite H. Qed.

Lemma tiki_license_cached (s : Tiki.Service) (l : LicenseRecord) :
  Tiki._license s = Some l -> Tiki.license env s = (Ok (Some l), s).
Proof.
  intros H. unfold Tiki.license, Tiki.bind, Tiki.gets. now rewrite H.
Qed.

Lemma tiki_license_uninitialised (s : Tiki.Service) :
  Tiki._id s = None -> Tiki._license s = None ->
  Tiki.license env s
  = (Throw (Error "Tiki is not initialized. First call .initialize()"), s).
Proof.
  intros Hi Hl.
  unfold Tiki.license, Tiki.id, Tiki.bind, Tiki.gets.
  now rewrite Hl, Hi.
Qed.

Lemma at_last_app {A : Type} (l : list A) (x : A) :
  Tiki.at_last (l ++ [x]) = Some x.
Proof.
  unfold Tiki.at_last. rewrite length_app. simpl.
  rewrite Nat.add_sub. rewrite nth_error_app2 by apply le_n.
  now rewrite Nat.sub_diag.
Qed.

Lemma tiki_license_result (s s1 : Tiki.Service) (l : LicenseRecord) :
  Tiki.license env s = (Ok (Some l), s1) -> Tiki._license s1 = Some l.
Proof.
  unfold Tiki.license.
  unfold Tiki.bind at 1, Tiki.gets at 1.
  destruct (Tiki._license s) as [l0 |] eqn:Hc.
  - unfold Tiki.ret. intros H. injection H as <- <-. exact Hc.
  - unfold Tiki.bind at 1, Tiki.id, Tiki.bind at 1, Tiki.gets at 1.
    destruct (Tiki._id s) as [i |]; [| discriminate].
    unfold Tiki.ret at 1. unfold Tiki.bind at 1, Tiki.call at 1.
    destruct (Tiki.getTitle env (Tiki.calls s) i) as [[t |] | e];
      [| discriminate | discriminate].
    unfold Tiki.bind at 1, Tiki.modify at 1.
    unfold Tiki.bind at 1, Tiki.call at 1.
    destruct (Tiki.getLicenses env _ (Tiki.title_id t)) as [ls | e];
      [| discriminate].
    unfold Tiki.bind, Tiki.gets.
    destruct (Nat.ltb 0 (List.length ls)); simpl.
    + intros H. injection H as H <-. exact H.
    + rewrite Hc. discriminate.
Qed.

(** X18: on a service that was never initialized (no id, no cached
    license), [license], [scan] and [retrieveTotal] all reject with ['Tiki
    is not initialized. First call .initialize()'] before any collaborator
    is called: the state is exactly as before. *)
Theorem tiki_uninitialised_rejects_without_calls (s : Tiki.Service) :
  Tiki._id s = None -> Tiki._license s = None ->
  let e := Error "Tiki is not initialized. First call .initialize()" in
  Tiki.license env s = (Throw e, s) /\
  Tiki.scan env s = (Throw e, s) /\
  Tiki.retrieveTotal env s = (Throw e, s).
Proof.
  intros Hi Hl e.
  pose proof (tiki_license_uninitialised s Hi Hl) as H.
  split; [exact H | split].
  - unfold Tiki.scan. now apply tiki_bind_throw.
  - unfold Tiki.retrieveTotal. now apply tiki_bind_throw.
Qed.

(** X19: a license found is cached: when [license()] resolves to a
    license, that license is stored, and a second call answers the same
    license without calling the sdk and without changing anything. *)
Theorem tiki_license_found_is_cached
  (s : Tiki.Service) (l : LicenseRecord) :
  fst (Tiki.license env s) = Ok (Some l) ->
  let s' := snd (Tiki.license env s) in
  Tiki._license s' = Some l /\
  Tiki.license env s' = (Ok (Some l), s').
Proof.
  intros H s'. subst s'.
  destruct (Tiki.license env s) as [r s1] eqn:E. simpl in *. subst r.
  assert (K : Tiki._license s1 = Some l)
    by exact (tiki_license_result s E).
  split; [exact K | now apply tiki_license_cached].
Qed.

(** X20: with an id and no cached license, when the sdk knows a title and
    lists its licenses, [license()] stores the title and answers the last
    license of the list, which it caches; with an empty list it answers
    [undefined] and caches nothing. *)
Theorem tiki_license_takes_the_last_license
  (s : Tiki.Service) (i : string) (t : Tiki.TitleRecord)
  (ls : list LicenseRecord) :
  Tiki._license s = None ->
  Tiki._id s = Some i ->
  Tiki.getTitle env (Tiki.calls s) i = Ok (Some t) ->
  Tiki.getLicenses env (Tiki.calls s ++ [Tiki.GetTitle i]) (Tiki.title_id t)
  = Ok ls ->
  Tiki.license env s
  = (Ok (Tiki.at_last ls),
     Tiki.with_license (Tiki.at_last ls)
       (Tiki.called (Tiki.GetLicenses (Tiki.title_id t))
          (Tiki.with_title (Some t) (Tiki.called (Tiki.GetTitle i) s)))) /\
  (ls = [] -> Tiki.at_last ls = None) /\
  (forall ls' l, ls = (ls' ++ [l])%list -> Tiki.at_last ls = Some l).
Proof.
  intros Hl Hi Ht Hls.
  split; [| split; [intros ->; reflexivity
                   | intros ls' l ->; apply at_last_app]].
  unfold Tiki.license.
  unfold Tiki.bind at 1, Tiki.gets at 1. rewrite Hl.
  unfold Tiki.bind at 1, Tiki.id, Tiki.bind at 1, Tiki.gets at 1.
  rewrite Hi. unfold Tiki.ret at 1.
  unfold Tiki.bind at 1, Tiki.call at 1. rewrite Ht.
  unfold Tiki.bind at 1, Tiki.modify at 1.
  unfold Tiki.bind at 1, Tiki.call at 1. simpl Tiki.calls. rewrite Hls.
  unfold Tiki.bind, Tiki.gets.
  destruct ls as [| l0 ls0]; simpl.
  - unfold Tiki.at_last; simpl. rewrite Hl.
    f_equal. destruct s; simpl in *. subst. reflexivity.
  - reflexivity.
Qed.

(** X21: with a cached license, [scan()] issues a payable exactly for a
    scanned receipt that is neither duplicate nor fraudulent and whose
    confidence is at least 0.5.  Any other receipt makes [scan] reject
    with the ['Scan failed'] error, the total untouched and no payable
    requested.  For an accepted receipt one payable of amount ["1"] and
    type ["pt"] is requested for the cached license, and the total grows
    by [Number(payable.amount)] of the payable the ledger answered; the
    total listener, if any, is then called with the new total and its
    outcome is the outcome of [scan]. *)
Theorem tiki_scan_pays_what_the_ledger_answers
  (s : Tiki.Service) (l : LicenseRecord) (r : Capture.Receipt) :
  Tiki._license s = Some l ->
  Tiki.capture_scan env (Tiki.calls s) = Ok r ->
  let request :=
    Tiki.CreatePayable (license_id l) "1" "pt"
      (Tiki.RECEIPT_SCANNED_DESCRIPTION env) (Capture.blinkReceiptId r) in
  (payableScan r = false ->
   Tiki.scan env s
   = (Throw (Error (Tiki.scanFailed env r)), Tiki.called Tiki.CaptureScan s))
  /\
  (payableScan r = true ->
   forall p,
     Tiki.createPayable env (Tiki.calls s ++ [Tiki.CaptureScan])
       (license_id l) "1" "pt" (Tiki.RECEIPT_SCANNED_DESCRIPTION env)
       (Capture.blinkReceiptId r) = Ok p ->
     let t := PrimFloat.add (Tiki._total s)
                (Tiki.Number env (Tiki.payable_amount p)) in
     let paid :=
       Tiki.with_total t (Tiki.called request
                            (Tiki.called Tiki.CaptureScan s)) in
     match Tiki.onTotalChanged s with
     | None => Tiki.scan env s = (Ok tt, paid)
     | Some cb =>
         Tiki.scan env s
         = (Tiki.totalListener env
              (Tiki.calls s ++ [Tiki.CaptureScan; request]) cb t,
            Tiki.called (Tiki.TotalChanged cb t) paid)
     end).
Proof.
  intros Hl Hr request.
  assert (E : Tiki.scan env s
    = (if payableScan r
       then Tiki.bind
              (Tiki.call request
                 (fun h => Tiki.createPayable env h (license_id l) "1"
                             Tiki._type (Tiki.RECEIPT_SCANNED_DESCRIPTION env)
                             (Capture.blinkReceiptId r)))
              (fun payable =>
                 Tiki.adjustTotal env
                   (Tiki.Number env (Tiki.payable_amount payable)))
       else Tiki.throw (Error (Tiki.scanFailed env r)))
        (Tiki.called Tiki.CaptureScan s)).
  { unfold Tiki.scan.
    rewrite (@tiki_bind_ok _ _ _ _ _ _ _ (tiki_license_cached s Hl)).
    unfold Tiki.bind at 1, Tiki.call at 1. rewrite Hr. reflexivity. }
  split; intros Hp; rewrite E, Hp; [reflexivity |].
  intros p Hpay t paid.
  destruct (Tiki.onTotalChanged s) as [cb |] eqn:Hcb;
    unfold Tiki.bind at 1, Tiki.call at 1; simpl Tiki.calls;
    unfold Tiki._type; rewrite Hpay;
    unfold Tiki.adjustTotal, Tiki.bind, Tiki.modify, Tiki.gets, Tiki.call;
    simpl; rewrite Hcb.
  - unfold paid, t, request. simpl. rewrite <- app_assoc. reflexivity.
  - reflexivity.
Qed.

(** X22: with an id but no license to be found, [scan()] rejects with
    ['No license found for <id>. User must first consent to the program.']
    and the capture plugin is never asked to scan: either the sdk knows no
    title for the id, or it knows one (which is stored) without any
    license. *)
Theorem tiki_scan_without_license_names_the_id
  (s : Tiki.Service) (i : string) :
  Tiki._license s = None ->
  Tiki._id s = Some i ->
  let e := Error ("No license found for " ++ i
                    ++ ". User must first consent to the program.") in
  (Tiki.getTitle env (Tiki.calls s) i = Ok None ->
   Tiki.scan env s = (Throw e, Tiki.called (Tiki.GetTitle i) s)) /\
  (forall t,
     Tiki.getTitle env (Tiki.calls s) i = Ok (Some t) ->
     Tiki.getLicenses env (Tiki.calls s ++ [Tiki.GetTitle i])
       (Tiki.title_id t) = Ok [] ->
     Tiki.scan env s
     = (Throw e,
        Tiki.called (Tiki.GetLicenses (Tiki.title_id t))
          (Tiki.with_title (Some t) (Tiki.called (Tiki.GetTitle i) s)))).
Proof.
  intros Hl Hi e. split.
  - intros Ht.
    assert (L : Tiki.license env s
                = (Ok None, Tiki.called (Tiki.GetTitle i) s)).
    { unfold Tiki.license.
      unfold Tiki.bind at 1, Tiki.gets at 1. rewrite Hl.
      unfold Tiki.bind at 1, Tiki.id, Tiki.bind at 1, Tiki.gets at 1.
      rewrite Hi. unfold Tiki.ret at 1.
      unfold Tiki.bind at 1, Tiki.call at 1. now rewrite Ht. }
    unfold Tiki.scan. rewrite (@tiki_bind_ok _ _ _ _ _ _ _ L).
    cbv beta iota.
    now rewrite (@tiki_bind_ok _ _ _ _ _ _ _
                   (tiki_id_ok (Tiki.called (Tiki.GetTitle i) s) Hi)).
  - intros t Ht Hls.
    set (s1 := Tiki.called (Tiki.GetLicenses (Tiki.title_id t))
                 (Tiki.with_title (Some t) (Tiki.called (Tiki.GetTitle i) s))).
    assert (L : Tiki.license env s = (Ok None, s1)).
    { unfold Tiki.license.
      unfold Tiki.bind at 1, Tiki.gets at 1. rewrite Hl.
      unfold Tiki.bind at 1, Tiki.id, Tiki.bind at 1, Tiki.gets at 1.
      rewrite Hi. unfold Tiki.ret at 1.
      unfold Tiki.bind at 1, Tiki.call at 1. rewrite Ht.
      unfold Tiki.bind at 1, Tiki.modify at 1.
      unfold Tiki.bind at 1, Tiki.call at 1. simpl Tiki.calls. rewrite Hls.
      unfold Tiki.bind, Tiki.gets; simpl. now rewrite Hl. }
    unfold Tiki.scan. rewrite (@tiki_bind_ok _ _ _ _ _ _ _ L).
    cbv beta iota.
    now rewrite (@tiki_bind_ok _ _ _ _ _ _ _ (tiki_id_ok s1 Hi)).
Qed.

Lemma sameIdentity_trans (s1 s2 s3 : Tiki.Service) :
  sameIdentity s1 s2 -> sameIdentity s2 s3 -> sameIdentity s1 s3.
Proof.
  intros (A1 & B1 & C1) (A2 & B2 & C2). repeat split; congruence.
Qed.

Lemma licenseKept_trans (s1 s2 s3 : Tiki.Service) :
  licenseKept s1 s2 -> licenseKept s2 s3 -> licenseKept s1 s3.
Proof. intros H1 H2 l Hl. apply H2, H1, Hl. Qed.

Lemma licenseKept_license : tiki_respects licenseKept (Tiki.license env).
Proof.
  intros s l Hl. now rewrite (tiki_license_cached s Hl).
Qed.

Lemma sameIdentity_refl (s : Tiki.Service) : sameIdentity s s.
Proof. repeat split. Qed.

Lemma sameIdentity_called (c : Tiki.Call) (s : Tiki.Service) :
  sameIdentity s (Tiki.called c s).
Proof. repeat split. Qed.

Lemma sameIdentity_total (s : Tiki.Service) (t : number) :
  sameIdentity s (Tiki.with_total t s).
Proof. repeat split. Qed.

Lemma sameIdentity_license : tiki_respects sameIdentity (Tiki.license env).
Proof.
  apply (@tiki_respects_license sameIdentity sameIdentity_refl
           sameIdentity_trans sameIdentity_called env);
    intros; repeat split.
Qed.

Lemma sameIdentity_retrieveTotal :
  tiki_respects sameIdentity (Tiki.retrieveTotal env).
Proof.
  apply (@tiki_respects_retrieveTotal sameIdentity sameIdentity_refl
           sameIdentity_trans sameIdentity_called env sameIdentity_total
           sameIdentity_license).
Qed.

(** X23: [initialize(id)] in its three outcomes.  If the licensing sdk
    rejects, nothing is set.  If it accepts and the capture plugin
    rejects, the id is set but the service is not marked initialized.
    If both accept, [initialize] resolves with the id set and the service
    marked initialized, whatever becomes of the total it starts to
    retrieve. *)
Theorem tiki_initialize_outcomes
  (i : string) (s : Tiki.Service) (e : JsError) :
  let c1 := Tiki.LicensingInitialize i (Tiki.publishingId (Tiki.key env)) in
  let c2 := Tiki.CaptureInitialize (Tiki.scanKey (Tiki.key env))
                                   (Tiki.intelKey (Tiki.key env)) in
  let ledger := Tiki.licensing_initialize env (Tiki.calls s) i
                  (Tiki.publishingId (Tiki.key env)) in
  let plugin := Tiki.capture_initialize env (Tiki.calls s ++ [c1])
                  (Tiki.scanKey (Tiki.key env))
                  (Tiki.intelKey (Tiki.key env)) in
  (ledger = Throw e ->
   Tiki.initialize env i s = (Throw e, Tiki.called c1 s)) /\
  (ledger = Ok tt -> plugin = Throw e ->
   Tiki.initialize env i s
   = (Throw e, Tiki.called c2 (Tiki.with_id (Some i) (Tiki.called c1 s)))) /\
  (ledger = Ok tt -> plugin = Ok tt ->
   fst (Tiki.initialize env i s) = Ok tt /\
   Tiki._id (snd (Tiki.initialize env i s)) = Some i /\
   Tiki.isInitialized (snd (Tiki.initialize env i s)) = true).
Proof.
  intros c1 c2 ledger plugin. subst ledger plugin.
  unfold Tiki.initialize. fold c1 c2.
  split; [| split].
  - intros H. unfold Tiki.bind at 1, Tiki.call at 1. now rewrite H.
  - intros H1 H2. unfold Tiki.bind at 1, Tiki.call at 1. rewrite H1.
    unfold Tiki.bind at 1, Tiki.modify at 1.
    unfold Tiki.bind at 1, Tiki.call at 1. simpl Tiki.calls.
    now rewrite H2.
  - intros H1 H2.
    set (s3 := Tiki.with_isInitialized true
                 (Tiki.called c2 (Tiki.with_id (Some i) (Tiki.called c1 s)))).
    assert (E : Tiki.bind (Tiki.call c1
                  (fun h => Tiki.licensing_initialize env h i
                              (Tiki.publishingId (Tiki.key env))))
                  (fun _ => Tiki.bind (Tiki.modify (Tiki.with_id (Some i)))
                  (fun _ => Tiki.bind (Tiki.call c2
                     (fun h => Tiki.capture_initialize env h
                                 (Tiki.scanKey (Tiki.key env))
                                 (Tiki.intelKey (Tiki.key env))))
                  (fun _ => Tiki.bind
                     (Tiki.modify (Tiki.with_isInitialized true))
                  (fun _ => Tiki.detach (Tiki.retrieveTotal env))))) s
                = (Ok tt, snd (Tiki.retrieveTotal env s3))).
    { unfold Tiki.bind at 1, Tiki.call at 1. rewrite H1.
      unfold Tiki.bind at 1, Tiki.modify at 1.
      unfold Tiki.bind at 1, Tiki.call at 1. simpl Tiki.calls. rewrite H2.
      reflexivity. }
    rewrite E. simpl fst. simpl snd.
    destruct (sameIdentity_retrieveTotal s3) as (A & B & _).
    unfold Tiki.isInitialized. rewrite A, B. repeat split.
Qed.

(** X24: a cached license is never replaced or dropped: after [license],
    [scan], [retrieveTotal] or [initialize], whatever the collaborators
    answer, a license that was cached before is still the cached one.
    And [license], [scan] and [retrieveTotal] never change the id, the
    initialized flag or the total listener. *)
Theorem tiki_cached_license_and_identity_are_kept
  (i : string) (s : Tiki.Service) :
  (licenseKept s (snd (Tiki.license env s)) /\
   licenseKept s (snd (Tiki.scan env s)) /\
   licenseKept s (snd (Tiki.retrieveTotal env s)) /\
   licenseKept s (snd (Tiki.initialize env i s))) /\
  (sameIdentity s (snd (Tiki.license env s)) /\
   sameIdentity s (snd (Tiki.scan env s)) /\
   sameIdentity s (snd (Tiki.retrieveTotal env s))).
Proof.
  assert (Kr : forall x, licenseKept x x) by (intros x l H; exact H).
  assert (Kc : forall c x, licenseKept x (Tiki.called c x))
    by (intros c x l H; exact H).
  assert (Kt : forall x t, licenseKept x (Tiki.with_total t x))
    by (intros x t l H; exact H).
  assert (Ki : forall x j, licenseKept x (Tiki.with_id j x))
    by (intros x j l H; exact H).
  assert (Kb : forall x b, licenseKept x (Tiki.with_isInitialized b x))
    by (intros x b l H; exact H).
  split; [split; [| split; [| split]] | split; [| split]].
  - apply licenseKept_license.
  - apply (@tiki_respects_scan licenseKept Kr licenseKept_trans Kc env Kt
             licenseKept_license).
  - apply (@tiki_respects_retrieveTotal licenseKept Kr licenseKept_trans Kc
             env Kt licenseKept_license).
  - apply (@tiki_respects_initialize licenseKept Kr licenseKept_trans Kc
             env Kt licenseKept_license Ki Kb).
  - apply sameIdentity_license.
  - apply (@tiki_respects_scan sameIdentity sameIdentity_refl
             sameIdentity_trans sameIdentity_called env sameIdentity_total
             sameIdentity_license).
  - apply sameIdentity_retrieveTotal.
Qed.

(** X25: [retrieveTotal()] counts payables of type ["pt"] only: with a
    cached license, when none of the payables the ledger lists has that
    type, it resolves with the total unchanged, and it asks for the
    receipts of none of them. *)
Theorem tiki_retrieveTotal_ignores_other_types
  (s : Tiki.Service) (l : LicenseRecord) (ps : list Tiki.PayableRecord) :
  Tiki._license s = Some l ->
  Tiki.getPayables env (Tiki.calls s) (license_id l) = Ok ps ->
  (forall p, In p ps -> Tiki.payable_type p <> "pt") ->
  Tiki.retrieveTotal env s
  = (Ok tt, Tiki.called (Tiki.GetPayables (license_id l)) s).
Proof.
  intros Hl Hps Hty.
  unfold Tiki.retrieveTotal.
  rewrite (@tiki_bind_ok _ _ _ _ _ _ _ (tiki_license_cached s Hl)).
  unfold Tiki.bind at 1, Tiki.call at 1. rewrite Hps.
  generalize (Tiki.called (Tiki.GetPayables (license_id l)) s).
  clear Hps. revert Hty.
  induction ps as [| p ps IH]; intros Hty s1; [reflexivity |].
  cbn [Tiki.forEach]. unfold Tiki.bind at 1.
  assert (E : String.eqb (Tiki.payable_type p) Tiki._type = false).
  { apply String.eqb_neq. apply Hty. now left. }
  rewrite E. unfold Tiki.ret at 1. apply IH.
  intros q Hq. apply Hty. now right.
Qed.

End TikiFacts.

(** *** Instances of the properties of TikiService *)

Section TikiExamples.

Import Fixture TikiFixture.

Lemma tiki_uninitialised_rejects_without_calls_example :
  Tiki.scan (ledger sharp (Some title) [current] []) Tiki.fresh
  = (Throw (Error "Tiki is not initialized. First call .initialize()"),
     Tiki.fresh).
Proof.
  apply (tiki_uninitialised_rejects_without_calls
           (ledger sharp (Some title) [current] []) Tiki.fresh);
    reflexivity.
Defined.

Lemma tiki_license_found_is_cached_example :
  let s' := snd (Tiki.license (ledger sharp (Some title) [expired; current] [])
                              signedIn) in
  Tiki._license s' = Some current /\
  Tiki.license (ledger sharp (Some title) [expired; current] []) s'
  = (Ok (Some current), s').
Proof.
  apply (tiki_license_found_is_cached
           (ledger sharp (Some title) [expired; current] []) signedIn).
  reflexivity.
Defined.

Lemma tiki_license_takes_the_last_license_example :
  Tiki.license (ledger sharp (Some title) [expired; current] []) signedIn
  = (Ok (Some current),
     Tiki.with_license (Some current)
       (Tiki.called (Tiki.GetLicenses "title-1")
          (Tiki.with_title (Some title)
             (Tiki.called (Tiki.GetTitle "user-1") signedIn)))).
Proof.
  apply (tiki_license_takes_the_last_license
           (ledger sharp (Some title) [expired; current] []) signedIn
           (i := "user-1") (t := title) (ls := [expired; current]));
    reflexivity.
Defined.

Lemma tiki_scan_pays_what_the_ledger_answers_example :
  Tiki.scan (ledger blurred (Some title) [current] []) consented
  = (Throw (Error (Tiki.scanFailed
                     (ledger blurred (Some title) [current] []) blurred)),
     Tiki.called Tiki.CaptureScan consented) /\
  Tiki.total (snd (Tiki.scan (ledger sharp (Some title) [current] [])
                             consented))
  = 4%float.
Proof.
  split.
  - apply (tiki_scan_pays_what_the_ledger_answers
             (ledger blurred (Some title) [current] []) consented
             (l := current) (r := blurred)); reflexivity.
  - destruct (tiki_scan_pays_what_the_ledger_answers
                (ledger sharp (Some title) [current] []) consented
                (l := current) (r := sharp) eq_refl eq_refl) as [_ Paid].
    rewrite (Paid eq_refl three eq_refl). reflexivity.
Defined.

Lemma tiki_scan_without_license_names_the_id_example :
  Tiki.scan (ledger sharp None [] []) signedIn
  = (Throw (Error
       "No license found for user-1. User must first consent to the program."),
     Tiki.called (Tiki.GetTitle "user-1") signedIn).
Proof.
  apply (tiki_scan_without_license_names_the_id (ledger sharp None [] [])
           signedIn (i := "user-1")); reflexivity.
Defined.

Lemma tiki_retrieveTotal_ignores_other_types_example :
  Tiki.retrieveTotal (ledger sharp (Some title) [current] [dollars]) consented
  = (Ok tt, Tiki.called (Tiki.GetPayables "license-1") consented).
Proof.
  apply (tiki_retrieveTotal_ignores_other_types
           (ledger sharp (Some title) [current] [dollars]) consented
           (l := current) (ps := [dollars])); try reflexivity.
  intros p [<- | []]. discriminate.
Defined.

End TikiExamples.

(** ** Properties of the earlier revision *)

Section LegacyFacts.

Variable env : Legacy.Env.

Lemma scrapes_app (l1 l2 : list Legacy.Call) :
  Legacy.scrapes (l1 ++ l2) = Legacy.scrapes l1 + Legacy.scrapes l2.
Proof. unfold Legacy.scrapes. now rewrite filter_app, length_app. Qed.

Lemma calm_refl (st : Legacy.State) : calm st st.
Proof. repeat split. exists []. now rewrite app_nil_r. Qed.

Lemma calm_trans (s1 s2 s3 : Legacy.State) :
  calm s1 s2 -> calm s2 s3 -> calm s1 s3.
Proof.
  intros (A1 & B1 & C1 & l1 & E1 & N1) (A2 & B2 & C2 & l2 & E2 & N2).
  repeat split; try congruence.
  exists (l1 ++ l2)%list. split.
  - now rewrite E2, E1, app_assoc.
  - now rewrite scrapes_app, N1, N2.
Qed.

Lemma calmly_silent {A : Type} (m : Legacy.L A) :
  (forall st, snd (m st) = st) -> calmly m.
Proof. intros H st. rewrite H. apply calm_refl. Qed.

Lemma calmly_call {A : Type} (c : Legacy.Call)
  (answer : list Legacy.Call -> Res A) :
  Legacy.scrapes [c] = 0 -> calmly (Legacy.call c answer).
Proof. intros H st. repeat split. now exists [c]. Qed.

Lemma calmly_bind {A B : Type} (m : Legacy.L A) (f : A -> Legacy.L B) :
  calmly m -> (forall a, calmly (f a)) -> calmly (Legacy.bind m f).
Proof.
  intros Hm Hf st. unfold Legacy.bind. specialize (Hm st).
  destruct (m st) as [[a | e] st1]; simpl in Hm; [| exact Hm].
  eapply calm_trans; [exact Hm | apply Hf].
Qed.

Lemma calmly_forEach {A : Type} (l : list A) (f : A -> Legacy.L unit) :
  (forall x, calmly (f x)) -> calmly (Legacy.forEach l f).
Proof.
  intros Hf; induction l as [| x l IH]; simpl.
  - now apply calmly_silent.
  - apply calmly_bind; auto.
Qed.

Lemma calmly_converted (account : option Capture.Account) :
  calmly (Legacy.converted env account).
Proof.
  destruct account as [a |]; simpl; [| now apply calmly_silent].
  apply calmly_bind; [now apply calmly_silent |].
  intros x. now apply calmly_silent.
Qed.

Lemma calmly_process (ev : ReceiptEvent) (d : Legacy.Details) :
  calmly (Legacy.process env ev d).
Proof.
  unfold Legacy.process. apply calmly_forEach. intros [i r].
  unfold Legacy.processReward.
  apply calmly_bind; [now apply calmly_call |].
  intros [a |]; [| now apply calmly_silent].
  apply calmly_bind; [now apply calmly_silent |]. intros today.
  apply calmly_bind; [now apply calmly_call |]. intros _.
  intros st. repeat split. exists []. simpl. now rewrite app_nil_r.
Qed.

Lemma calmly_addReceipt (r : Capture.Receipt)
  (account : option Capture.Account) :
  calmly (Legacy.addReceipt env r account).
Proof.
  unfold Legacy.addReceipt.
  destruct (negb (Capture.duplicate r) && negb (Capture.fraudulent r));
    [| now apply calmly_call].
  apply calmly_bind; [apply calmly_converted |]. intros a.
  apply calmly_bind; [apply calmly_process |]. intros _.
  apply calmly_bind; [now apply calmly_silent |]. intros listeners.
  apply calmly_forEach. intros kv.
  apply calmly_bind; [apply calmly_converted |]. intros a'.
  now apply calmly_call.
Qed.

(** What the callback of [scrape] does with the batches. *)
Lemma batches_resolve
  (batches : list (Capture.Account * list Capture.Receipt))
  (st : Legacy.State) :
  fst (Legacy.forEach batches (fun batch =>
         Legacy.forEach (snd batch) (fun receipt =>
           Legacy.detach
             (Legacy.addReceipt env receipt (Some (fst batch))))) st)
  = Ok tt /\
  calm st
    (snd (Legacy.forEach batches (fun batch =>
            Legacy.forEach (snd batch) (fun receipt =>
              Legacy.detach
                (Legacy.addReceipt env receipt (Some (fst batch))))) st)).
Proof.
  assert (Inner : forall (a : Capture.Account) (rs : list Capture.Receipt)
                         (s : Legacy.State),
    fst (Legacy.forEach rs (fun receipt =>
           Legacy.detach (Legacy.addReceipt env receipt (Some a))) s)
    = Ok tt /\
    calm s (snd (Legacy.forEach rs (fun receipt =>
                   Legacy.detach (Legacy.addReceipt env receipt (Some a)))
                   s))).
  { intros a rs; induction rs as [| r rs IH]; intros s.
    - split; [reflexivity | apply calm_refl].
    - cbn [Legacy.forEach]. unfold Legacy.bind at 1 2.
      unfold Legacy.detach at 1 3. cbv beta iota.
      destruct (IH (snd (Legacy.addReceipt env r (Some a) s))) as [F C].
      split; [exact F |].
      eapply calm_trans; [apply calmly_addReceipt | exact C]. }
  revert st. induction batches as [| [a rs] bs IH]; intros st.
  - split; [reflexivity | apply calm_refl].
  - cbn [Legacy.forEach]. unfold Legacy.bind at 1 2. cbv beta. simpl fst.
    simpl snd.
    destruct (Inner a rs st) as [F C].
    destruct (Legacy.forEach rs _ st) as [[[] | e] s1]; simpl in F;
      [| discriminate].
    simpl in C. destruct (IH s1) as [F' C'].
    split; [exact F' |].
    eapply calm_trans; [exact C | exact C'].
Qed.

Lemma scrape_facts (st : Legacy.State) :
  fst (Legacy.scrape env st) = snd (Legacy.scrapeEmail env (Legacy.log st))
  /\
  Legacy._accounts (snd (Legacy.scrape env st)) = Legacy._accounts st /\
  Legacy._onAccountListeners (snd (Legacy.scrape env st))
  = Legacy._onAccountListeners st /\
  exists added,
    Legacy.log (snd (Legacy.scrape env st))
    = (Legacy.log st ++ Legacy.ScrapeEmail :: added)%list /\
    Legacy.scrapes added = 0.
Proof.
  unfold Legacy.scrape.
  destruct (Legacy.scrapeEmail env (Legacy.log st)) as [batches outcome].
  unfold Legacy.bind.
  destruct (batches_resolve batches (Legacy.logged Legacy.ScrapeEmail st))
    as [F (A & B & _ & added & E & N)].
  destruct (Legacy.forEach batches _ _) as [[[] | e] s1]; simpl in F;
    [| discriminate].
  simpl in *. unfold Legacy.lift. simpl.
  repeat split; trivial.
  exists added. split; [| exact N].
  rewrite E. now rewrite <- app_assoc.
Qed.

(** X28: [scrape()] settles exactly as the promise of the plugin does,
    whatever becomes of the receipts it hands over: a receipt that fails
    to be added never makes [scrape] reject.  The plugin is asked to
    scrape once, and the account cache and the registries are
    untouched. *)
Theorem legacy_scrape_settles_as_the_plugin (st : Legacy.State) :
  fst (Legacy.scrape env st) = snd (Legacy.scrapeEmail env (Legacy.log st))
  /\
  Legacy._accounts (snd (Legacy.scrape env st)) = Legacy._accounts st /\
  Legacy._onAccountListeners (snd (Legacy.scrape env st))
  = Legacy._onAccountListeners st /\
  exists added,
    Legacy.log (snd (Legacy.scrape env st))
    = (Legacy.log st ++ Legacy.ScrapeEmail :: added)%list /\
    Legacy.scrapes added = 0.
Proof. apply scrape_facts. Qed.

Lemma legacy_with_log_same (st : Legacy.State) :
  Legacy.with_log (Legacy.log st) st = st.
Proof. destruct st; reflexivity. Qed.

Lemma legacy_notify_all (account : Legacy.ReceiptAccount) :
  (forall h cb, Legacy.accountListener env h cb account = Ok tt) ->
  forall (registry : list (string * Callback)) (st : Legacy.State),
    Legacy.forEach registry (fun kv =>
      Legacy.call (Legacy.AccountListenerCall (snd kv) account)
        (fun h => Legacy.accountListener env h (snd kv) account)) st
    = (Ok tt,
       Legacy.with_log
         (Legacy.log st ++ Legacy.notifications account registry) st).
Proof.
  intros Hl registry; induction registry as [| kv l IH]; intros st.
  - simpl. unfold Legacy.ret. now rewrite app_nil_r, legacy_with_log_same.
  - cbn [Legacy.forEach]. unfold Legacy.bind, Legacy.call. rewrite Hl, IH.
    f_equal. unfold Legacy.with_log, Legacy.logged; simpl.
    now rewrite <- app_assoc.
Qed.

Lemma scrapes_notifications (account : Legacy.ReceiptAccount)
  (registry : list (string * Callback)) :
  Legacy.scrapes (Legacy.notifications account registry) = 0.
Proof. induction registry as [| kv l IH]; simpl; trivial. Qed.

Lemma legacy_addAccount_scrapes_once (account : Legacy.ReceiptAccount)
  (st : Legacy.State) :
  (forall h cb, Legacy.accountListener env h cb account = Ok tt) ->
  fst (Legacy.addAccount env account st) = Ok tt /\
  Legacy._accounts (snd (Legacy.addAccount env account st))
  = (Legacy._accounts st ++ [account])%list /\
  Legacy._onAccountListeners (snd (Legacy.addAccount env account st))
  = Legacy._onAccountListeners st /\
  exists added,
    Legacy.log (snd (Legacy.addAccount env account st))
    = (Legacy.log st ++ added)%list /\
    Legacy.scrapes added = 1.
Proof.
  intros Hl.
  unfold Legacy.addAccount, Legacy.bind, Legacy.modify, Legacy.gets.
  rewrite legacy_notify_all by exact Hl.
  unfold Legacy.detach. simpl fst. simpl snd.
  match goal with
  | |- context [Legacy.scrape env ?s] =>
      destruct (scrape_facts s) as (_ & A & B & added & E & N)
  end.
  rewrite A, B, E. simpl.
  repeat split.
  eexists. split; [rewrite <- app_assoc; reflexivity |].
  rewrite scrapes_app, scrapes_notifications. simpl.
  unfold Legacy.scrapes in *. simpl. now rewrite N.
Qed.

(** X29: when the plugin lists its verified accounts, each converts with
    [fromCapture] and the listeners return, [load()] resolves with the
    converted accounts appended to the cache in order, and the plugin is
    asked to scrape exactly once per account, whatever the scrapes
    deliver. *)
Theorem legacy_load_scrapes_once_per_account
  (conv : Capture.Account -> Legacy.ReceiptAccount)
  (verified : list Capture.Account) (st : Legacy.State) :
  Legacy.verifyEmail env (Legacy.log st) = Ok verified ->
  (forall a, In a verified -> Legacy.fromCapture env a = Ok (conv a)) ->
  (forall h cb a, Legacy.accountListener env h cb a = Ok tt) ->
  fst (Legacy.load env st) = Ok tt /\
  Legacy.accounts (snd (Legacy.load env st))
  = (Legacy._accounts st ++ map conv verified)%list /\
  exists added,
    Legacy.log (snd (Legacy.load env st))
    = (Legacy.log st ++ Legacy.VerifyEmail :: added)%list /\
    Legacy.scrapes added = List.length verified.
Proof.
  intros Hv Hconv Hl.
  assert (G : forall (l : list Capture.Account) (s : Legacy.State),
    (forall a, In a l -> Legacy.fromCapture env a = Ok (conv a)) ->
    exists s' added,
      Legacy.forEach l (fun account =>
        Legacy.bind (Legacy.lift (Legacy.fromCapture env account))
          (fun a => Legacy.addAccount env a)) s = (Ok tt, s') /\
      Legacy._accounts s' = (Legacy._accounts s ++ map conv l)%list /\
      Legacy.log s' = (Legacy.log s ++ added)%list /\
      Legacy.scrapes added = List.length l).
  { intros l; induction l as [| a l IH]; intros s Hc.
    - exists s, []. simpl. rewrite !app_nil_r. repeat split.
    - cbn [Legacy.forEach]. unfold Legacy.bind at 1. cbv beta.
      unfold Legacy.bind at 1, Legacy.lift at 1.
      rewrite (Hc a) by (now left).
      destruct (legacy_addAccount_scrapes_once (conv a) s
                  (fun h cb => Hl h cb (conv a)))
        as (F & A & _ & added & E & N).
      destruct (Legacy.addAccount env (conv a) s) as [[[] | e] s1];
        simpl in F; [| discriminate].
      simpl in A, E.
      destruct (IH s1 (fun x Hx => Hc x (or_intror Hx)))
        as (s' & added' & R & A' & E' & N').
      exists s', (added ++ added')%list. rewrite R.
      split; [reflexivity | split; [| split]].
      + rewrite A', A. simpl. now rewrite <- app_assoc.
      + now rewrite E', E, app_assoc.
      + rewrite scrapes_app, N, N'. reflexivity. }
  destruct (G verified (Legacy.logged Legacy.VerifyEmail st) Hconv)
    as (s' & added & R & A & E & N).
  assert (E0 : Legacy.load env st = (Ok tt, s')).
  { unfold Legacy.load. unfold Legacy.bind at 1, Legacy.call at 1.
    rewrite Hv. exact R. }
  rewrite E0. unfold Legacy.accounts. simpl.
  split; [reflexivity | split; [exact A |]].
  exists added. split; [| exact N].
  rewrite E. simpl. now rewrite <- app_assoc.
Qed.

(** X26: [scan()] of the earlier revision.  Without a license it rejects
    with the consent error naming [sdk.id] and the plugin is not asked to
    scan.  With one, the scanned receipt goes to [addReceipt], with no
    account, exactly when its confidence is strictly above 0.8;
    otherwise [scan] resolves after one warning. *)
Theorem legacy_scan_gates_on_license_and_confidence (st : Legacy.State) :
  (Legacy.getLicense env (Legacy.log st) = Ok None ->
   Legacy.scan env st
   = (Throw (Error ("No license found for " ++ Legacy.sdk_id env
                      ++ ". User must first consent to the program.")),
      Legacy.logged Legacy.GetLicense st)) /\
  (forall license r,
     Legacy.getLicense env (Legacy.log st) = Ok (Some license) ->
     Legacy.plugin_scan env (Legacy.log st ++ [Legacy.GetLicense]) = Ok r ->
     let st' := Legacy.logged Legacy.PluginScan
                  (Legacy.logged Legacy.GetLicense st) in
     (gt (Capture.ocrConfidence r) Legacy.OCR_THRESHOLD = true ->
      Legacy.scan env st = Legacy.addReceipt env r None st') /\
     (gt (Capture.ocrConfidence r) Legacy.OCR_THRESHOLD = false ->
      Legacy.scan env st
      = (Ok tt,
         Legacy.logged
           (Legacy.ConsoleWarn (LowConfidence (Capture.ocrConfidence r)))
           st'))).
Proof.
  split.
  - intros H. unfold Legacy.scan, Legacy.bind, Legacy.call. now rewrite H.
  - intros license r Hlic Hscan st'.
    assert (E : Legacy.scan env st
      = (if gt (Capture.ocrConfidence r) Legacy.OCR_THRESHOLD
         then Legacy.addReceipt env r None
         else Legacy.call
                (Legacy.ConsoleWarn (LowConfidence (Capture.ocrConfidence r)))
                (fun _ => Ok tt)) st').
    { unfold Legacy.scan. unfold Legacy.bind at 1, Legacy.call at 1.
      rewrite Hlic. unfold Legacy.bind at 1, Legacy.call at 1.
      simpl Legacy.log. rewrite Hscan. reflexivity. }
    split; intros Hc; rewrite E, Hc; reflexivity.
Qed.





End LegacyFacts.

(** *** Instances of the properties of the earlier revision *)

Section LegacyExamples.

Import LegacyFixture.


Lemma legacy_load_scrapes_once_per_account_example :
  fst (Legacy.load (host [dana; eli] [Fixture.sharp; Fixture.resubmitted])
                   service) = Ok tt /\
  Legacy.accounts
    (snd (Legacy.load (host [dana; eli] [Fixture.sharp; Fixture.resubmitted])
                      service))
  = [normalize dana; normalize eli] /\
  exists added,
    Legacy.log
      (snd (Legacy.load
              (host [dana; eli] [Fixture.sharp; Fixture.resubmitted])
              service))
    = Legacy.VerifyEmail :: added /\
    Legacy.scrapes added = 2.
Proof.
  apply (legacy_load_scrapes_once_per_account
           (host [dana; eli] [Fixture.sharp; Fixture.resubmitted])
           normalize (verified := [dana; eli]) service).
  - reflexivity.
  - intros a _. reflexivity.
  - intros; reflexivity.
Defined.

End LegacyExamples.
